(** * csv-image: a shallow embedding of the converter and its properties

    The repository holds three revisions of one small Go program:

    - [CsvJpeg]    the [csv-jpeg] precursor (JPEG only, fixed [./output]);
    - [Sequential] [csv-image.go], first part: one record after the other,
                   output written with [fmt.Printf] as it happens;
    - [Concurrent] [csv-image.go], second part: one goroutine per record,
                   console text collected in a string per record.

    Everything the Go source does itself is a definition below.  What the
    source only calls (the image codecs and the CSV lexer of the Go standard
    library) is a field of the class [GoLib]; the file system and the field
    count rule of [csv.Reader] are small executable models.

    Conventions of the model:
    - a process is a function from a [World] (file system, standard output,
      standard error) to an [Outcome]: return, exit with a status, panic;
    - paths are compared as written; a file is a string of bytes; a write at
      offset 0 keeps what lies behind the bytes written, since no file is
      opened with [O_TRUNC];
    - a goroutine runs from start to end without interleaving; which
      goroutines have run, and in which order, is a parameter of
      [Concurrent.main];
    - [fmt.Printf] is modelled for the verb [%s], the only one used. *)

From Stdlib Require Import ZArith Lia Ascii String.
From stdpp Require Import base strings pretty gmap list.

Open Scope string_scope.

(** ** Strings *)

(** The newline character of the Go string literals. *)
Definition nl : string := String "010"%char "".

Fixpoint string_drop (n : nat) (s : string) : string :=
  match n, s with
  | O, _ => s
  | S _, EmptyString => EmptyString
  | S n', String _ s' => string_drop n' s'
  end.

(** [fmt.Sprintf] for formats whose only verb is [%s]: each verb takes the
    next operand, and a verb without operand prints as [%!s(MISSING)]. *)
Fixpoint Sprintf (format : string) (args : list string) : string :=
  match format with
  | EmptyString => ""
  | String c rest =>
      match rest with
      | EmptyString => String c ""
      | String d rest' =>
          if (Ascii.eqb c "%" && Ascii.eqb d "s")%bool then
            match args with
            | a :: args' => a +:+ Sprintf rest' args'
            | [] => "%!s(MISSING)" +:+ Sprintf rest' []
            end
          else String c (Sprintf rest args)
      end
  end.

(** ** Paths *)

Definition is_sep (c : ascii) : bool := Ascii.eqb c "/".

(** The directory part of a path: what precedes its last separator.
    [None] when the path has no separator (an entry of the working
    directory); [Some ""] for an entry of the root. *)
Fixpoint parent (p : string) : option string :=
  match p with
  | EmptyString => None
  | String c p' =>
      match parent p' with
      | Some q => Some (String c q)
      | None => if is_sep c then Some "" else None
      end
  end.

(** The chain of directories above a path, nearest first, the root and the
    working directory left out. *)
Fixpoint parents (fuel : nat) (p : string) : list string :=
  match fuel with
  | O => []
  | S fuel' =>
      match parent p with
      | Some q => if decide (q = "") then [] else q :: parents fuel' q
      | None => []
      end
  end.

Definition ancestors (p : string) : list string := parents (String.length p) p.

(** ** File system *)

(** Directories and regular files, keyed by the path as written.  Separators
    are not normalised, [.] and [..] are not interpreted. *)
Record FS := mkFS {
  dirs : gset string;
  files : gmap string string
}.

Inductive errno := ENOENT | EEXIST | ENOTDIR | EISDIR.

Definition strerror (e : errno) : string :=
  match e with
  | ENOENT => "no such file or directory"
  | EEXIST => "file exists"
  | ENOTDIR => "not a directory"
  | EISDIR => "is a directory"
  end.

(** [*os.PathError] *)
Record PathError := mkPathError { Op : string; Path : string; Err : errno }.

Definition Error (e : PathError) : string :=
  Op e +:+ " " +:+ Path e +:+ ": " +:+ strerror (Err e).

Definition is_dir (fs : FS) (p : string) : bool := bool_decide (p ∈ dirs fs).
Definition is_file (fs : FS) (p : string) : bool := bool_decide (is_Some (files fs !! p)).

(** Can an entry be created or opened at [p]: its directory part must be a
    directory. *)
Definition parent_errno (fs : FS) (p : string) : option errno :=
  match parent p with
  | None => None
  | Some q =>
      if decide (q = "") then None
      else if is_dir fs q then None
      else if is_file fs q then Some ENOTDIR
      else Some ENOENT
  end.

(** [os.Stat]: [None] when the path exists. *)
Definition os_Stat (fs : FS) (p : string) : option PathError :=
  if is_dir fs p || is_file fs p then None
  else Some (mkPathError "stat" p
               (match parent_errno fs p with Some e => e | None => ENOENT end)).

(** [os.IsNotExist] *)
Definition IsNotExist (e : option PathError) : bool :=
  match e with
  | Some pe => match Err pe with ENOENT => true | _ => false end
  | None => false
  end.

(** [os.Mkdir] *)
Definition os_Mkdir (fs : FS) (p : string) : FS * option PathError :=
  if is_dir fs p || is_file fs p then (fs, Some (mkPathError "mkdir" p EEXIST))
  else match parent_errno fs p with
       | Some e => (fs, Some (mkPathError "mkdir" p e))
       | None => (mkFS ({[p]} ∪ dirs fs) (files fs), None)
       end.

(** [os.MkdirAll], along the chain [p :: ancestors p]: stop at a path that
    exists, otherwise make the directories above first and then [p]. *)
Fixpoint MkdirAll_chain (fs : FS) (chain : list string) : FS * option PathError :=
  match chain with
  | [] => (fs, None)
  | p :: above =>
      if is_dir fs p then (fs, None)
      else if is_file fs p then (fs, Some (mkPathError "mkdir" p ENOTDIR))
      else
        match MkdirAll_chain fs above with
        | (fs', Some e) => (fs', Some e)
        | (fs', None) =>
            match os_Mkdir fs' p with
            | (fs'', Some e) => if is_dir fs'' p then (fs'', None) else (fs'', Some e)
            | (fs'', None) => (fs'', None)
            end
        end
  end.

Definition os_MkdirAll (fs : FS) (p : string) : FS * option PathError :=
  MkdirAll_chain fs (p :: ancestors p).

(** What a write of [new] at offset 0 leaves in a file that held [old]:
    the file is not truncated. *)
Definition overwrite (old new : string) : string :=
  new +:+ string_drop (String.length new) old.

(** [os.OpenFile(p, os.O_WRONLY|os.O_CREATE, 0777)]: the file is created
    empty when absent and keeps its content otherwise. *)
Definition os_OpenFile (fs : FS) (p : string) : FS * option PathError :=
  if is_dir fs p then (fs, Some (mkPathError "open" p EISDIR))
  else match parent_errno fs p with
       | Some e => (fs, Some (mkPathError "open" p e))
       | None => (mkFS (dirs fs) (<[p := default "" (files fs !! p)]> (files fs)), None)
       end.

(** A write through a handle opened on [p], at offset 0. *)
Definition write_at (fs : FS) (p : string) (bytes : string) : FS :=
  mkFS (dirs fs) (<[p := overwrite (default "" (files fs !! p)) bytes]> (files fs)).

(** [os.Open] followed by [ioutil.ReadAll] *)
Definition read_file (fs : FS) (p : string) : string + PathError :=
  match files fs !! p with
  | Some content => inl content
  | None =>
      if is_dir fs p then inr (mkPathError "read" p EISDIR)
      else inr (mkPathError "open" p
                  (match parent_errno fs p with Some e => e | None => ENOENT end))
  end.

(** ** The process: file system, console, exit *)

Record World := mkWorld {
  fs : FS;
  stdout : list string;   (* one entry per [fmt.Printf] call *)
  stderr : list string    (* one entry per [log] call, time stamp left out *)
}.

(** How a call ends: it returns, the process exits ([os.Exit], reached
    through [log.Fatalln]), or the goroutine panics (exit status 2). *)
Inductive Outcome (A : Type) : Type :=
| Ret (a : A) (w : World)
| Exit (code : Z) (w : World)
| Panic (msg : string) (w : World).
Arguments Ret {A} a w.
Arguments Exit {A} code w.
Arguments Panic {A} msg w.

Definition M (A : Type) : Type := World -> Outcome A.

Definition ret {A} (a : A) : M A := fun w => Ret a w.

Definition bind {A B} (c : M A) (k : A -> M B) : M B :=
  fun w =>
    match c w with
    | Ret a w' => k a w'
    | Exit code w' => Exit code w'
    | Panic msg w' => Panic msg w'
    end.

Declare Scope go_scope.
Delimit Scope go_scope with go.
Notation "'let*' x ':=' c 'in' k" := (bind c (fun x => k))
  (at level 10, x name, c at level 100, k at level 200) : go_scope.
Notation "c '>>' k" := (bind c (fun _ => k))
  (at level 65, right associativity) : go_scope.
Open Scope go_scope.

Definition world_of {A} (o : Outcome A) : World :=
  match o with Ret _ w | Exit _ w | Panic _ w => w end.

Definition exit_status {A} (o : Outcome A) : Z :=
  match o with Ret _ _ => 0 | Exit code _ => code | Panic _ _ => 2 end.

(** [fmt.Printf] *)
Definition Printf (format : string) (args : list string) : M unit :=
  fun w => Ret tt (mkWorld (fs w) (stdout w ++ [Sprintf format args]) (stderr w)).

(** [log.Fatalln]: the message goes to standard error, the process exits
    with status 1. *)
Definition log_Fatalln {A} (msg : string) : M A :=
  fun w => Exit 1 (mkWorld (fs w) (stdout w) (stderr w ++ [msg +:+ nl])).

Definition panic {A} (msg : string) : M A := fun w => Panic msg w.

(** A call into the [os] package. *)
Definition sys (op : FS -> FS * option PathError) : M (option PathError) :=
  fun w => let '(fs', e) := op (fs w) in Ret e (mkWorld fs' (stdout w) (stderr w)).

Definition Stat (p : string) : M (option PathError) := sys (fun s => (s, os_Stat s p)).
Definition Mkdir (p : string) : M (option PathError) := sys (fun s => os_Mkdir s p).
Definition MkdirAll (p : string) : M (option PathError) := sys (fun s => os_MkdirAll s p).
Definition OpenFile (p : string) : M (option PathError) := sys (fun s => os_OpenFile s p).

(** A write to the file opened on [p]; the bytes that reach the file are
    written even when the writer then reports an error. *)
Definition Write (p : string) (bytes : string) : M unit :=
  fun w => Ret tt (mkWorld (write_at (fs w) p bytes) (stdout w) (stderr w)).

(** ** The CSV reader *)

(** A line of the input as the lexer of [encoding/csv] leaves it, before
    the field count is looked at. *)
Inductive RawRow :=
| Fields (record : list string)
| BadSyntax (err : string).

Inductive ReadResult :=
| ReadRecord (record : list string)
| ReadEOF
| ReadError (err : string).

Definition ErrFieldCount : string := "wrong number of fields".

(** The field count rule of [csv.Reader.Read].  [csv.NewReader] leaves
    [FieldsPerRecord] at 0: the first record read sets it, and every later
    record must have as many fields. *)
Definition check_fields (FieldsPerRecord : Z) (row : RawRow) : ReadResult * Z :=
  match row with
  | BadSyntax e => (ReadError e, FieldsPerRecord)
  | Fields record =>
      let n := Z.of_nat (length record) in
      if (0 <? FieldsPerRecord)%Z then
        if (n =? FieldsPerRecord)%Z then (ReadRecord record, FieldsPerRecord)
        else (ReadError ErrFieldCount, FieldsPerRecord)
      else if (FieldsPerRecord =? 0)%Z then (ReadRecord record, n)
      else (ReadRecord record, FieldsPerRecord)
  end.

Record Reader := mkReader { FieldsPerRecord : Z; pending : list RawRow }.

Definition Read (r : Reader) : ReadResult * Reader :=
  match pending r with
  | [] => (ReadEOF, r)
  | row :: rest =>
      let '(res, n) := check_fields (FieldsPerRecord r) row in
      (res, mkReader n rest)
  end.

(** [record[i]]: the field, or the message of the panic when [i] is out of
    range. *)
Definition try_index (record : list string) (i : nat) : string + string :=
  match record !! i with
  | Some x => inl x
  | None =>
      inr (Sprintf "runtime error: index out of range [%s] with length %s"
             [pretty i; pretty (length record)])
  end.

Definition index (record : list string) (i : nat) : M string :=
  match try_index record i with
  | inl x => ret x
  | inr msg => panic msg
  end.

(** ** What the program calls in the Go standard library *)

(** [image.Decode] on a [base64.NewDecoder] over the payload: the image and
    the name of its format, or an error (the format name is reported
    whenever the signature was recognised). *)
Inductive Decoded (Image : Type) :=
| DecodeOk (m : Image) (formatString : string)
| DecodeErr (formatString : string) (err : string).
Arguments DecodeOk {Image} m formatString.
Arguments DecodeErr {Image} formatString err.

Definition format_of {Image} (d : Decoded Image) : string :=
  match d with DecodeOk _ f | DecodeErr f _ => f end.

Class GoLib := {
  Image : Type;
  (** [image.Decode(base64.NewDecoder(base64.StdEncoding, strings.NewReader(data)))] *)
  image_Decode : string -> Decoded Image;
  (** [png.Encode(f, m)]: the bytes that reached [f], and the error if any *)
  png_Encode : Image -> string * option string;
  (** [jpeg.Encode(f, m, &jpeg.Options{Quality: q})] *)
  jpeg_Encode : Image -> Z -> string * option string;
  (** the lexer of [encoding/csv] on the text of the input file *)
  csv_lex : string -> list RawRow
}.

(** [csv.NewReader(strings.NewReader(text))] *)
Definition NewReader `{GoLib} (text : string) : Reader := mkReader 0 (csv_lex text).

(** * [csv-image.go], first part: the sequential program *)

Module Sequential.
Section Program.
Context `{GoLib}.

(** Writes [data] to [./output/<filename>.txt]. *)
Definition dumpData (data filename outputDir : string) : M unit :=
  let dumpFileName := Sprintf "%s/%s.txt" [filename] in
  Printf ("Dumping data to '%s' for debugging..." +:+ nl +:+ nl) [dumpFileName] >>
  let* err := Stat outputDir in
  (if IsNotExist err then
     match err with
     | Some e =>
         Printf ("Failed create output directory '%s': %s" +:+ nl) [outputDir; Error e] >>
         log_Fatalln "Couldn't write image file!"
     | None => ret tt
     end
   else ret tt) >>
  let* err := OpenFile dumpFileName in
  match err with
  | Some e => log_Fatalln (Error e)
  | None => Write dumpFileName (data +:+ nl)
  end.

(** Encodes image data into a PNG and writes it to [./output/<filename>.png]. *)
Definition encodeToPNG (image : Image) (data filename outputDir : string) : M unit :=
  let pngFilename := Sprintf "%s/%s.png" [outputDir; filename] in
  Printf ("Writing to '%s'..." +:+ nl) [pngFilename] >>
  let* err := Stat outputDir in
  (if IsNotExist err then
     let* err := Mkdir outputDir in
     match err with
     | Some e =>
         Printf ("Failed create output directory '%s': %s" +:+ nl) [outputDir; Error e] >>
         log_Fatalln "Couldn't write image file!"
     | None => ret tt
     end
   else ret tt) >>
  let* err := OpenFile pngFilename in
  match err with
  | Some e =>
      Printf ("Failed to write file '%s': %s" +:+ nl) [pngFilename; Error e] >>
      log_Fatalln "Couldn't write image file!"
  | None =>
      let '(bytes, err) := png_Encode image in
      Write pngFilename bytes >>
      match err with
      | Some e =>
          Printf ("Parsing error: %s" +:+ nl) [e] >>
          dumpData data filename outputDir
      | None => Printf ("Created '%s'" +:+ nl) [pngFilename]
      end
  end.

(** Encodes image data into a JPEG and writes it to [./output/<filename>.jpeg]. *)
Definition encodeToJPEG (image : Image) (data filename outputDir : string) : M unit :=
  let jpegFileName := Sprintf "%s/%s.jpeg" [outputDir; filename] in
  Printf ("Writing to '%s'..." +:+ nl) [jpegFileName] >>
  let* err := Stat outputDir in
  (if IsNotExist err then
     match err with
     | Some e =>
         Printf ("Failed create output directory '%s': %s" +:+ nl) [outputDir; Error e] >>
         log_Fatalln "Couldn't write image file!"
     | None => ret tt
     end
   else ret tt) >>
  let* err := OpenFile jpegFileName in
  match err with
  | Some e =>
      Printf ("Failed to write file '%s': %s" +:+ nl) [jpegFileName; Error e] >>
      log_Fatalln "Couldn't write image file!"
  | None =>
      let '(bytes, err) := jpeg_Encode image 100 in
      Write jpegFileName bytes >>
      match err with
      | Some e =>
          Printf ("Parsing error: %s" +:+ nl) [e] >>
          dumpData data filename outputDir
      | None => Printf ("Created '%s'" +:+ nl +:+ nl) [jpegFileName]
      end
  end.

(** Attempts to parse a base-64 [data] string and encode it into an image,
    and writes the image to a file. *)
Definition base64ToImage (data id outputDir : string) : M unit :=
  Printf ("Attempting to decode data with ID: %s..." +:+ nl) [id] >>
  let decoded := image_Decode data in
  Printf ("Format: %s" +:+ nl) [format_of decoded] >>
  match decoded with
  | DecodeErr _ err =>
      Printf ("Parsing error: %s" +:+ nl) [err] >>
      dumpData data id outputDir
  | DecodeOk image formatString =>
      if decide (formatString = "jpeg") then encodeToJPEG image data id outputDir
      else encodeToPNG image data id outputDir
  end.

(** Creates a CSV reader from a CSV file at a specified filepath. *)
Definition parseCSV (filepath : string) : M (Reader + PathError) :=
  Printf ("Importing file '%s'..." +:+ nl) [filepath] >>
  fun w =>
    match read_file (fs w) filepath with
    | inr e => Ret (inr e) w
    | inl bytes => Ret (inl (NewReader bytes)) w
    end.

(** The [for] loop of [main] over the rows the reader still holds. *)
Fixpoint read_loop (FieldsPerRecord : Z) (rows : list RawRow) (outputDir : string) : M unit :=
  match rows with
  | [] => ret tt
  | row :: rest =>
      match check_fields FieldsPerRecord row with
      | (ReadEOF, _) => ret tt
      | (ReadError err, _) => log_Fatalln err
      | (ReadRecord record, n) =>
          let* id := index record 0 in
          let* data := index record 1 in
          base64ToImage data id outputDir >>
          read_loop n rest outputDir
      end
  end.

(** [main], with the values of the flags [-csv] and [-output]. *)
Definition main (filepath outputDir : string) : M unit :=
  let* r := parseCSV filepath in
  match r with
  | inr e => log_Fatalln (Error e)
  | inl reader =>
      read_loop (FieldsPerRecord reader) (pending reader) outputDir >>
      Printf (nl +:+ "Done! Check %s for image output." +:+ nl) [outputDir]
  end.

End Program.
End Sequential.

(** * [csv-image.go], second part: one goroutine per record *)

Module Concurrent.
Section Program.
Context `{GoLib}.

(** Writes [data] to [./output/<filename>.txt]. *)
Definition dumpData (data filename outputDir : string) : M string :=
  let dumpFileName := Sprintf "%s/%s.txt" [outputDir; filename] in
  let output := "" +:+ Sprintf ("Dumping data to '%s' for debugging..." +:+ nl +:+ nl) [dumpFileName] in
  let* err := MkdirAll outputDir in
  match err with
  | Some e =>
      ret (output +:+ Sprintf ("Failed create output directory '%s': %s" +:+ nl) [outputDir; Error e])
  | None =>
      let* err := OpenFile dumpFileName in
      match err with
      | Some e => ret (output +:+ Sprintf "Failed to write to dump file: %s" [Error e])
      | None =>
          (* [f.WriteString] on a file just opened: no error in this model *)
          Write dumpFileName (data +:+ nl) >>
          ret output
      end
  end.

(** Encodes image data into a PNG and writes it to [./output/<filename>.png]. *)
Definition encodeToPNG (image : Image) (data filename outputDir : string) : M string :=
  let pngFilename := Sprintf "%s/%s.png" [outputDir; filename] in
  let output := "" +:+ Sprintf ("Writing to '%s'..." +:+ nl) [pngFilename] in
  let* err := MkdirAll outputDir in
  match err with
  | Some e =>
      ret (output +:+ Sprintf ("Failed create output directory '%s': %s" +:+ nl) [outputDir; Error e])
  | None =>
      let* err := OpenFile pngFilename in
      match err with
      | Some e =>
          ret (output +:+ Sprintf ("Failed to write file '%s': %s" +:+ nl) [pngFilename; Error e])
      | None =>
          let '(bytes, err) := png_Encode image in
          Write pngFilename bytes >>
          match err with
          | Some e =>
              let output := output +:+ Sprintf ("Parsing error: %s" +:+ nl) [e] in
              dumpData data filename outputDir >>
              ret output
          | None => ret (output +:+ Sprintf ("Created '%s'" +:+ nl +:+ nl) [pngFilename])
          end
      end
  end.

(** Encodes image data into a JPEG and writes it to [./output/<filename>.jpeg]. *)
Definition encodeToJPEG (image : Image) (data filename outputDir : string) : M string :=
  let jpegFileName := Sprintf "%s/%s.jpeg" [outputDir; filename] in
  let output := "" +:+ Sprintf ("Writing to '%s'..." +:+ nl) [jpegFileName] in
  let* err := MkdirAll outputDir in
  match err with
  | Some e =>
      ret (output +:+ Sprintf ("Failed create output directory '%s': %s" +:+ nl) [outputDir; Error e])
  | None =>
      let* err := OpenFile jpegFileName in
      match err with
      | Some e =>
          ret (output +:+ Sprintf ("Failed to write file '%s': %s" +:+ nl) [jpegFileName; Error e])
      | None =>
          let '(bytes, err) := jpeg_Encode image 100 in
          Write jpegFileName bytes >>
          match err with
          | Some e =>
              let output := output +:+ Sprintf ("Parsing error: %s" +:+ nl) [e] in
              dumpData data filename outputDir >>
              ret output
          | None => ret (output +:+ Sprintf ("Created '%s'" +:+ nl +:+ nl) [jpegFileName])
          end
      end
  end.

(** Attempts to parse a base-64 [data] string and encode it into an image,
    and writes the image to a file.  The body of one goroutine; the
    deferred [wg.Done()] is the return. *)
Definition base64ToImage (data id outputDir : string) : M unit :=
  let output := "" in
  let output := output +:+ Sprintf ("Attempting to decode data with ID: %s..." +:+ nl) [id] in
  let decoded := image_Decode data in
  let output := output +:+ Sprintf ("Format: %s" +:+ nl) [format_of decoded] in
  match decoded with
  | DecodeErr _ err =>
      Printf ("Parsing error: %s" +:+ nl) [err] >>
      dumpData data id outputDir >>
      ret tt
  | DecodeOk image formatString =>
      let* output :=
        if decide (formatString = "jpeg") then
          let* o := encodeToJPEG image data id outputDir in ret (output +:+ o)
        else if decide (formatString = "png") then
          let* o := encodeToPNG image data id outputDir in ret (output +:+ o)
        else
          let output := output +:+ Sprintf ("Unrecognized image format: %s" +:+ nl) [formatString] in
          dumpData data id outputDir >>
          ret output
      in
      Printf output []
  end.

(** Creates a CSV reader from a CSV file at a specified filepath. *)
Definition parseCSV (filepath : string) : M (Reader + PathError) :=
  Printf ("Importing file '%s'..." +:+ nl) [filepath] >>
  fun w =>
    match read_file (fs w) filepath with
    | inr e => Ret (inr e) w
    | inl bytes => Ret (inl (NewReader bytes)) w
    end.

(** How the [for] loop of [main] ends, with the goroutines it has started
    (payload and identifier of each, in the order of the [go] statements). *)
Inductive Dispatch :=
| Dispatched (spawned : list (string * string))                  (* [io.EOF] *)
| DispatchFatal (spawned : list (string * string)) (err : string) (* [log.Fatalln] *)
| DispatchPanic (spawned : list (string * string)) (msg : string).

Fixpoint read_loop (FieldsPerRecord : Z) (rows : list RawRow)
    (spawned : list (string * string)) : Dispatch :=
  match rows with
  | [] => Dispatched spawned
  | row :: rest =>
      match check_fields FieldsPerRecord row with
      | (ReadEOF, _) => Dispatched spawned
      | (ReadError err, _) => DispatchFatal spawned err
      | (ReadRecord record, n) =>
          match try_index record 0 with
          | inr msg => DispatchPanic spawned msg
          | inl id =>
              match try_index record 1 with
              | inr msg => DispatchPanic spawned msg
              | inl data => read_loop n rest (spawned ++ [(data, id)])
              end
          end
      end
  end.

(** The goroutines that have run, each from start to end, one after the
    other. *)
Fixpoint run_goroutines (ran : list (string * string)) (outputDir : string) : M unit :=
  match ran with
  | [] => ret tt
  | (data, id) :: ran' => base64ToImage data id outputDir >> run_goroutines ran' outputDir
  end.

(** [main], with the values of the flags [-csv] and [-output].  [schedule]
    is the scheduler: of the goroutines started, those that have run when
    the main goroutine moves on, in the order in which they ran.  After
    [wg.Wait()] that is all of them. *)
Definition main (schedule : list (string * string) -> list (string * string))
    (filepath outputDir : string) : M unit :=
  let* r := parseCSV filepath in
  match r with
  | inr e => log_Fatalln (Error e)
  | inl reader =>
      match read_loop (FieldsPerRecord reader) (pending reader) [] with
      | Dispatched spawned =>
          run_goroutines (schedule spawned) outputDir >>
          Printf (nl +:+ "Done! Check %s for image output." +:+ nl) [outputDir]
      | DispatchFatal spawned err =>
          run_goroutines (schedule spawned) outputDir >> log_Fatalln err
      | DispatchPanic spawned msg =>
          run_goroutines (schedule spawned) outputDir >> panic msg
      end
  end.

End Program.
End Concurrent.

(** * The [csv-jpeg] precursor *)

Module CsvJpeg.
Section Program.
Context `{GoLib}.

(** Writes [data] to [./output/<filename>.txt]. *)
Definition dumpData (data filename : string) : M unit :=
  let dumpFileName := Sprintf "./output/%s.txt" [filename] in
  Printf ("Dumping data to '%s' for debugging..." +:+ nl) [dumpFileName] >>
  let* err := OpenFile dumpFileName in
  match err with
  | Some e => log_Fatalln (Error e)
  | None => Write dumpFileName (data +:+ nl)
  end.

(** Parses base-64 encoded [data] and writes it to
    [./output/<filename>.jpeg]; the result is the error, if any. *)
Definition base64toJpg (data filename : string) : M (option string) :=
  let jpegFileName := Sprintf "./output/%s.jpeg" [filename] in
  Printf ("Attempting to write to '%s'..." +:+ nl) [jpegFileName] >>
  let decoded := image_Decode data in
  Printf ("Format: %s" +:+ nl) [format_of decoded] >>
  match decoded with
  | DecodeErr _ err =>
      dumpData data filename >>
      ret (Some err)
  | DecodeOk m _ =>
      let* err := OpenFile jpegFileName in
      match err with
      | Some e => dumpData data filename >> ret (Some (Error e))
      | None =>
          let '(bytes, err) := jpeg_Encode m 100 in
          Write jpegFileName bytes >>
          match err with
          | Some e => dumpData data filename >> ret (Some e)
          | None => Printf ("Created '%s'" +:+ nl) [jpegFileName] >> ret None
          end
      end
  end.

(** Creates a CSV reader from a CSV file at a specified filepath. *)
Definition parseCSV (filepath : string) : M (Reader + PathError) :=
  Printf ("Importing file '%s'..." +:+ nl) [filepath] >>
  fun w =>
    match read_file (fs w) filepath with
    | inr e => Ret (inr e) w
    | inl bytes => Ret (inl (NewReader bytes)) w
    end.

Fixpoint read_loop (FieldsPerRecord : Z) (rows : list RawRow) : M unit :=
  match rows with
  | [] => ret tt
  | row :: rest =>
      match check_fields FieldsPerRecord row with
      | (ReadEOF, _) => ret tt
      | (ReadError err, _) => log_Fatalln err
      | (ReadRecord record, n) =>
          let* filename := index record 0 in
          let* data := index record 1 in
          let* err := base64toJpg data filename in
          match err with
          | Some e => log_Fatalln e
          | None => read_loop n rest
          end
      end
  end.

(** [main], with the value of the flag [-filepath]. *)
Definition main (filepath : string) : M unit :=
  let* r := parseCSV filepath in
  match r with
  | inr e => log_Fatalln (Error e)
  | inl reader => read_loop (FieldsPerRecord reader) (pending reader)
  end.

End Program.
End CsvJpeg.

(** * A small instance of the library, to run the programs on *)

Module Toy.

Fixpoint split_on (c : ascii) (s : string) : list string :=
  match s with
  | EmptyString => [""]
  | String d s' =>
      if Ascii.eqb d c then "" :: split_on c s'
      else match split_on c s' with
           | x :: xs => String d x :: xs
           | [] => [String d ""]
           end
  end.

Fixpoint has_char (c : ascii) (s : string) : bool :=
  match s with
  | EmptyString => false
  | String d s' => Ascii.eqb d c || has_char c s'
  end.

(** Lines are separated by newlines, empty lines are skipped, fields are
    separated by commas; a line with a quotation mark is refused. *)
Definition lex (text : string) : list RawRow :=
  (fun line =>
     if has_char "034" line then BadSyntax "bare quote in non-quoted field"
     else Fields (split_on "," line))
  <$> filter (fun line => line ≠ "") (split_on "010" text).

(** An image is the text of the payload after the signature.  As in the
    programs, the formats known are PNG and JPEG; anything else, a GIF
    ([R0lGOD...]) say, is of unknown format. *)
Definition decode (data : string) : Decoded string :=
  if String.prefix "iVBOR" data then DecodeOk (string_drop 5 data) "png"
  else if String.prefix "/9j/" data then DecodeOk (string_drop 4 data) "jpeg"
  else DecodeErr "" "image: unknown format".

(** Encoding stops half way, with an error, on an image whose text starts
    with [X]. *)
Definition encode (tag : string) (m : string) : string * option string :=
  if String.prefix "X" m then (tag, Some "short write")
  else (tag +:+ ":" +:+ m, None).

#[export] Instance lib : GoLib := {|
  Image := string;
  image_Decode := decode;
  png_Encode := encode "PNG";
  jpeg_Encode := fun m quality => encode ("JPEG" +:+ pretty quality) m;
  csv_lex := lex
|}.

(** A working directory that holds the input file and nothing else. *)
Definition world (csv : string) : World :=
  mkWorld (mkFS ∅ {[ "test.csv" := csv ]}) [] [].

(** The same, with the output directory [out] in place. *)
Definition world_out (csv : string) : World :=
  mkWorld (mkFS {[ "out" ]} {[ "test.csv" := csv ]}) [] [].

End Toy.

(** ** File system traffic of one record

    What a record does to the file system, as a list of steps: making sure
    of the output directory in one of the three ways the revisions use, and
    opening a file and writing to it.  A step that fails ends the list.
    That the functions of the programs do what their lists of steps do is
    proved below ([..._follows], [..._runs]); the lists serve the proofs
    about repeated runs. *)

Inductive dirop :=
| ByMkdirAll    (* [os.MkdirAll(dir)] *)
| ByStatMkdir   (* [os.Stat(dir)], and [os.Mkdir(dir)] when it does not exist *)
| ByStat.       (* [os.Stat(dir)], and failure when it does not exist *)

Inductive op :=
| EnsureDir (how : dirop) (dir : string)
| OpenWrite (p : string) (bytes : string).

Definition exec_op (s : FS) (o : op) : FS * bool :=
  match o with
  | EnsureDir ByMkdirAll d =>
      let '(s', e) := os_MkdirAll s d in (s', bool_decide (e = None))
  | EnsureDir ByStatMkdir d =>
      if IsNotExist (os_Stat s d) then
        let '(s', e) := os_Mkdir s d in (s', bool_decide (e = None))
      else (s, true)
  | EnsureDir ByStat d => (s, negb (IsNotExist (os_Stat s d)))
  | OpenWrite p bytes =>
      let '(s', e) := os_OpenFile s p in
      match e with
      | None => (write_at s' p bytes, true)
      | Some _ => (s', false)
      end
  end.

Fixpoint exec_ops (s : FS) (ops : list op) : FS * bool :=
  match ops with
  | [] => (s, true)
  | o :: ops' =>
      let '(s', ok) := exec_op s o in
      if ok then exec_ops s' ops' else (s', false)
  end.

(** Records one after the other, each to its end or to its first failing
    step. *)
Fixpoint exec_records (s : FS) (records : list (list op)) : FS :=
  match records with
  | [] => s
  | r :: records' => exec_records (fst (exec_ops s r)) records'
  end.

(** The writes of a list of steps when the directories are [ds] and every
    [EnsureDir] step finds its directory in place; the flag tells whether
    the list runs to its end. *)
Definition openable_in (ds : gset string) (p : string) : bool :=
  negb (bool_decide (p ∈ ds)) &&
  match parent p with
  | None => true
  | Some q => bool_decide (q = "") || bool_decide (q ∈ ds)
  end.

Fixpoint writes_of (ds : gset string) (ops : list op) : list (string * string) * bool :=
  match ops with
  | [] => ([], true)
  | EnsureDir _ _ :: ops' => writes_of ds ops'
  | OpenWrite p bytes :: ops' =>
      if openable_in ds p then
        let '(ws, ok) := writes_of ds ops' in ((p, bytes) :: ws, ok)
      else ([], false)
  end.

Fixpoint apply_writes (ws : list (string * string)) (m : gmap string string) : gmap string string :=
  match ws with
  | [] => m
  | (p, bytes) :: ws' => apply_writes ws' (<[p := overwrite (default "" (m !! p)) bytes]> m)
  end.

(** Each path of a chain is followed by its directory part. *)
Fixpoint linked (chain : list string) : Prop :=
  match chain with
  | [] => True
  | p :: above =>
      match above with
      | [] => True
      | q :: _ => parent p = Some q /\ q ≠ ""
      end /\ linked above
  end.

Definition returned {A} (o : Outcome A) : bool :=
  match o with Ret _ _ => true | _ => false end.

(** A call follows a list of steps: it leaves the file system they leave,
    returns when they all succeed, and ends the process with status 1 when
    one fails. *)
Definition follows {A} (o : Outcome A) (r : FS * bool) : Prop :=
  fs (world_of o) = fst r /\
  (if snd r then returned o = true else exists w, o = Exit 1 w).

(** A call runs a list of steps and returns in any case, with nothing
    written to standard error. *)
Definition runs {A} (w : World) (o : Outcome A) (r : FS * bool) : Prop :=
  fs (world_of o) = fst r /\ returned o = true /\ stderr (world_of o) = stderr w.

(** ** The steps of each revision *)

Module SequentialSteps.
Section Steps.
Context `{GoLib}.

Definition dumpData (data filename outputDir : string) : list op :=
  [EnsureDir ByStat outputDir;
   OpenWrite (Sprintf "%s/%s.txt" [filename]) (data +:+ nl)].

Definition encodeToPNG (image : Image) (data filename outputDir : string) : list op :=
  [EnsureDir ByStatMkdir outputDir;
   OpenWrite (Sprintf "%s/%s.png" [outputDir; filename]) (fst (png_Encode image))]
  ++ match snd (png_Encode image) with
     | Some _ => dumpData data filename outputDir
     | None => []
     end.

Definition encodeToJPEG (image : Image) (data filename outputDir : string) : list op :=
  [EnsureDir ByStat outputDir;
   OpenWrite (Sprintf "%s/%s.jpeg" [outputDir; filename]) (fst (jpeg_Encode image 100))]
  ++ match snd (jpeg_Encode image 100) with
     | Some _ => dumpData data filename outputDir
     | None => []
     end.

Definition base64ToImage (data id outputDir : string) : list op :=
  match image_Decode data with
  | DecodeErr _ _ => dumpData data id outputDir
  | DecodeOk image formatString =>
      if decide (formatString = "jpeg") then encodeToJPEG image data id outputDir
      else encodeToPNG image data id outputDir
  end.

End Steps.
End SequentialSteps.

Module ConcurrentSteps.
Section Steps.
Context `{GoLib}.

Definition dumpData (data filename outputDir : string) : list op :=
  [EnsureDir ByMkdirAll outputDir;
   OpenWrite (Sprintf "%s/%s.txt" [outputDir; filename]) (data +:+ nl)].

Definition encodeToPNG (image : Image) (data filename outputDir : string) : list op :=
  [EnsureDir ByMkdirAll outputDir;
   OpenWrite (Sprintf "%s/%s.png" [outputDir; filename]) (fst (png_Encode image))]
  ++ match snd (png_Encode image) with
     | Some _ => dumpData data filename outputDir
     | None => []
     end.

Definition encodeToJPEG (image : Image) (data filename outputDir : string) : list op :=
  [EnsureDir ByMkdirAll outputDir;
   OpenWrite (Sprintf "%s/%s.jpeg" [outputDir; filename]) (fst (jpeg_Encode image 100))]
  ++ match snd (jpeg_Encode image 100) with
     | Some _ => dumpData data filename outputDir
     | None => []
     end.

Definition base64ToImage (data id outputDir : string) : list op :=
  match image_Decode data with
  | DecodeErr _ _ => dumpData data id outputDir
  | DecodeOk image formatString =>
      if decide (formatString = "jpeg") then encodeToJPEG image data id outputDir
      else if decide (formatString = "png") then encodeToPNG image data id outputDir
      else dumpData data id outputDir
  end.

End Steps.
End ConcurrentSteps.

(** * Notions used to state the properties *)

(** The reader after [i] calls of [Read], and the result of the next call. *)
Fixpoint after_reads (i : nat) (r : Reader) : Reader :=
  match i with
  | O => r
  | S i' => after_reads i' (snd (Read r))
  end.

Definition nth_read (r : Reader) (i : nat) : ReadResult := fst (Read (after_reads i r)).

Definition panic_of {A} (o : Outcome A) : option string :=
  match o with Panic msg _ => Some msg | _ => None end.

(** A file can be opened for writing at [p]: [p] is not a directory and its
    directory part is one. *)
Definition openable (s : FS) (p : string) : bool :=
  negb (is_dir s p) && bool_decide (parent_errno s p = None).

(** The image file of a record under the two-way table of the sequential
    program, and the encoder that goes with it. *)
Definition image_file (formatString outputDir id : string) : string :=
  if decide (formatString = "jpeg") then Sprintf "%s/%s.jpeg" [outputDir; id]
  else Sprintf "%s/%s.png" [outputDir; id].

Definition encoding `{GoLib} (formatString : string) (m : Image) : string * option string :=
  if decide (formatString = "jpeg") then jpeg_Encode m 100 else png_Encode m.

Definition dump_file (outputDir id : string) : string :=
  Sprintf "%s/%s.txt" [outputDir; id].

(** Every row is a record of [n] fields. *)
Definition uniform (n : nat) (rows : list RawRow) : Prop :=
  Forall (fun row => exists record, row = Fields record /\ length record = n) rows.

(** Successive writes at offset 0 of one file, and the writes of a list
    that go to the file [p]. *)
Definition overwrite_all (news : list string) (old : string) : string :=
  fold_left overwrite news old.

Fixpoint writes_to (p : string) (ws : list (string * string)) : list string :=
  match ws with
  | [] => []
  | (q, bytes) :: ws' =>
      if decide (q = p) then bytes :: writes_to p ws' else writes_to p ws'
  end.

(** What the writes [news], in this order, leave at the start of a file. *)
Fixpoint written (news : list string) : string :=
  match news with
  | [] => ""
  | new :: news' => written news' +:+ string_drop (String.length (written news')) new
  end.

(** The records the loop of [main] takes from the reader before the input
    ends, the reader fails or an index is out of range: payload and
    identifier of each. *)
Fixpoint records_read (FieldsPerRecord : Z) (rows : list RawRow) : list (string * string) :=
  match rows with
  | [] => []
  | row :: rest =>
      match check_fields FieldsPerRecord row with
      | (ReadRecord record, n) =>
          match try_index record 0, try_index record 1 with
          | inl id, inl data => (data, id) :: records_read n rest
          | _, _ => []
          end
      | _ => []
      end
  end.

Definition dispatched (d : Concurrent.Dispatch) : list (string * string) :=
  match d with
  | Concurrent.Dispatched spawned
  | Concurrent.DispatchFatal spawned _
  | Concurrent.DispatchPanic spawned _ => spawned
  end.

(** The steps a revision uses: the output directory [D] is the only
    directory it makes sure of, in the ways [allowed]. *)
Definition good_op (allowed : dirop -> Prop) (D : string) (o : op) : Prop :=
  match o with
  | EnsureDir how d => allowed how /\ d = D
  | OpenWrite _ _ => True
  end.

(** The steps of a record start with the output directory. *)
Definition starts_with_dir (allowed : dirop -> Prop) (D : string) (ops : list op) : Prop :=
  exists how rest, ops = EnsureDir how D :: rest /\ allowed how /\ Forall (good_op allowed D) rest.

(** The way the concurrent program makes sure of the output directory, and
    the ways of the sequential program; for the latter the directory counts
    as settled when [os.Stat] does not report it missing. *)
Definition by_mkdirall (how : dirop) : Prop := how = ByMkdirAll.

Definition by_stat (how : dirop) : Prop := how = ByStat \/ how = ByStatMkdir.

Definition stat_settled (D : string) (s : FS) : Prop := IsNotExist (os_Stat s D) = false.

(** What the loops of [main] take from a row: the second field as payload
    and the first as identifier. *)
Definition payload_and_id (row : RawRow) : option (string * string) :=
  match row with
  | Fields (id :: data :: _) => Some (data, id)
  | _ => None
  end.

(** The first and the last line of a run. *)
Definition importing_line (filepath : string) : string :=
  Sprintf ("Importing file '%s'..." +:+ nl) [filepath].

Definition done_line (outputDir : string) : string :=
  Sprintf (nl +:+ "Done! Check %s for image output." +:+ nl) [outputDir].

(** The paths a list of steps opens, and the three files a record of the
    concurrent program can open. *)
Fixpoint paths_of (ops : list op) : list string :=
  match ops with
  | [] => []
  | EnsureDir _ _ :: ops' => paths_of ops'
  | OpenWrite p _ :: ops' => p :: paths_of ops'
  end.

Definition targets (outputDir id : string) : list string :=
  [Sprintf "%s/%s.png" [outputDir; id];
   Sprintf "%s/%s.jpeg" [outputDir; id];
   Sprintf "%s/%s.txt" [outputDir; id]].

(** No file of [s] is removed or made shorter in [s']. *)
Definition grows (s s' : FS) : Prop :=
  forall p c, files s !! p = Some c ->
    exists c', files s' !! p = Some c' /\ String.length c <= String.length c'.

(** The steps of the goroutine of a record (payload, identifier). *)
Definition goroutine_steps `{GoLib} (outputDir : string) (record : string * string) : list op :=
  let '(data, id) := record in ConcurrentSteps.base64ToImage data id outputDir.

(** A record that goes through without fallback when the directories are
    [ds]: its payload decodes to JPEG or PNG, the encoder succeeds, and its
    image file can be opened. *)
Definition goes_through `{GoLib} (outputDir : string) (ds : gset string)
    (record : string * string) : Prop :=
  exists m f bytes,
    image_Decode record.1 = DecodeOk m f /\ (f = "jpeg" \/ f = "png") /\
    encoding f m = (bytes, None) /\
    openable_in ds (image_file f outputDir record.2) = true.

(** The formats [image.Decode] knows are those registered by the packages
    a program imports: [image/jpeg] and [image/png] in both revisions of
    [csv-image.go] (lines 9-10 and 186-187).  A successful [image.Decode]
    returns the name of the registered format whose signature the data
    starts with. *)
Definition registered_formats : list string := ["jpeg"; "png"].

Definition decodes_registered `{GoLib} : Prop :=
  forall data m f, image_Decode data = DecodeOk m f -> f ∈ registered_formats.

(** The records (payload, identifier) that [main] reads from the input file
    [filepath] of the file system [s]: those of the rows before the first
    one that ends the loop; none when the file cannot be read. *)
Definition input_records `{GoLib} (s : FS) (filepath : string) : list (string * string) :=
  match read_file s filepath with
  | inl text => records_read 0 (csv_lex text)
  | inr _ => []
  end.

(** * The reader *)

Section ReaderFacts.

Lemma check_fields_set (n : Z) (record : list string) :
  (0 < n)%Z ->
  check_fields n (Fields record) =
    (if (Z.of_nat (length record) =? n)%Z then ReadRecord record else ReadError ErrFieldCount, n).
Proof.
  intros Hn. unfold check_fields.
  assert ((0 <? n)%Z = true) as -> by (apply Z.ltb_lt; lia).
  by destruct (Z.of_nat (length record) =? n)%Z.
Qed.

Lemma check_fields_keeps (n : Z) (row : RawRow) :
  (0 < n)%Z -> snd (check_fields n row) = n.
Proof.
  intros Hn. destruct row as [record|e]; [|done].
  rewrite check_fields_set by done. done.
Qed.

Lemma after_reads_set (n : Z) (i : nat) (rows : list RawRow) :
  (0 < n)%Z -> after_reads i (mkReader n rows) = mkReader n (drop i rows).
Proof.
  intros Hn. revert rows. induction i as [|i IH]; intros rows; [done|].
  destruct rows as [|row rows]; simpl.
  - unfold Read; simpl. rewrite IH. by rewrite drop_nil.
  - unfold Read; simpl.
    pose proof (check_fields_keeps n row Hn) as Hk.
    destruct (check_fields n row) as [res n']; simpl in *; subst n'. apply IH.
Qed.

Lemma after_reads_fresh (i : nat) (first : list string) (rows : list RawRow) :
  first ≠ [] ->
  after_reads (S i) (mkReader 0 (Fields first :: rows)) =
    mkReader (Z.of_nat (length first)) (drop i rows).
Proof.
  intros Hne. simpl.
  apply after_reads_set. destruct first; [done|simpl; lia].
Qed.

End ReaderFacts.

(** The [for] loops of the three [main] functions are the iteration of
    [Read]. *)
Lemma Sequential_read_loop_Read `{GoLib} (r : Reader) (outputDir : string) :
  Sequential.read_loop (FieldsPerRecord r) (pending r) outputDir =
    match Read r with
    | (ReadEOF, _) => ret tt
    | (ReadError err, _) => log_Fatalln err
    | (ReadRecord record, r') =>
        let* id := index record 0 in
        let* data := index record 1 in
        Sequential.base64ToImage data id outputDir >>
        Sequential.read_loop (FieldsPerRecord r') (pending r') outputDir
    end.
Proof.
  destruct r as [n [|row rows]]; [done|]. unfold Read; simpl.
  by destruct (check_fields n row) as [[record| |err] n'].
Qed.

Lemma Concurrent_read_loop_Read (r : Reader) (spawned : list (string * string)) :
  Concurrent.read_loop (FieldsPerRecord r) (pending r) spawned =
    match Read r with
    | (ReadEOF, _) => Concurrent.Dispatched spawned
    | (ReadError err, _) => Concurrent.DispatchFatal spawned err
    | (ReadRecord record, r') =>
        match try_index record 0 with
        | inr msg => Concurrent.DispatchPanic spawned msg
        | inl id =>
            match try_index record 1 with
            | inr msg => Concurrent.DispatchPanic spawned msg
            | inl data =>
                Concurrent.read_loop (FieldsPerRecord r') (pending r') (spawned ++ [(data, id)])
            end
        end
    end.
Proof.
  destruct r as [n [|row rows]]; [done|]. unfold Read; simpl.
  by destruct (check_fields n row) as [[record| |err] n'].
Qed.

Lemma CsvJpeg_read_loop_Read `{GoLib} (r : Reader) :
  CsvJpeg.read_loop (FieldsPerRecord r) (pending r) =
    match Read r with
    | (ReadEOF, _) => ret tt
    | (ReadError err, _) => log_Fatalln err
    | (ReadRecord record, r') =>
        let* filename := index record 0 in
        let* data := index record 1 in
        let* err := CsvJpeg.base64toJpg data filename in
        match err with
        | Some e => log_Fatalln e
        | None => CsvJpeg.read_loop (FieldsPerRecord r') (pending r')
        end
    end.
Proof.
  destruct r as [n [|row rows]]; [done|]. unfold Read; simpl.
  by destruct (check_fields n row) as [[record| |err] n'].
Qed.

(** C5 (as amended). The reader yields the first row whatever its number of
    fields; a later row is yielded exactly when it has as many fields as the
    first row, and is refused with "wrong number of fields" otherwise.  No
    row is compared with the number two. *)
Theorem C5_rows_follow_first_row `{GoLib} (text : string) (first record : list string) (i : nat) :
  csv_lex text !! 0%nat = Some (Fields first) ->
  first ≠ [] ->
  csv_lex text !! i = Some (Fields record) ->
  (nth_read (NewReader text) i = ReadRecord record <-> length record = length first) /\
  (length record ≠ length first -> nth_read (NewReader text) i = ReadError ErrFieldCount).
Proof.
  unfold NewReader, nth_read. destruct (csv_lex text) as [|row rows]; [done|].
  intros [= ->] Hne Hi.
  destruct i as [|i].
  - injection Hi as ->. simpl. unfold Read; simpl. split; [done|]. by intros [].
  - rewrite after_reads_fresh by done. simpl in Hi.
    unfold Read; simpl. rewrite (drop_S _ _ _ Hi).
    rewrite check_fields_set by (destruct first; [done|simpl; lia]).
    destruct (Z.eqb_spec (Z.of_nat (length record)) (Z.of_nat (length first))) as [Heq|Hneq]; simpl.
    + split; [split; [lia|done]|]. intros; lia.
    + split; [split; [done|lia]|done].
Qed.

Lemma C5_rows_follow_first_row_witness :
  nth_read (NewReader (H:=Toy.lib) ("a,b,c" +:+ nl +:+ "d,e,f" +:+ nl)) 1 = ReadRecord ["d"; "e"; "f"].
Proof.
  apply (C5_rows_follow_first_row (H:=Toy.lib)
           ("a,b,c" +:+ nl +:+ "d,e,f" +:+ nl) ["a"; "b"; "c"] ["d"; "e"; "f"] 1);
    [reflexivity|discriminate|reflexivity|reflexivity].
Defined.

(** C5, as stated, fails: a row of three fields that comes first is yielded,
    and the row of two fields after it is refused. *)
Lemma C5_counterexample :
  let r := NewReader (H:=Toy.lib) ("a,b,c" +:+ nl +:+ "d,e" +:+ nl) in
  csv_lex (GoLib:=Toy.lib) ("a,b,c" +:+ nl +:+ "d,e" +:+ nl)
    = [Fields ["a"; "b"; "c"]; Fields ["d"; "e"]] /\
  nth_read r 0 = ReadRecord ["a"; "b"; "c"] /\
  nth_read r 1 = ReadError ErrFieldCount.
Proof. vm_compute. done. Qed.

(** * The file system *)

Section FSFacts.
Implicit Types (s : FS) (p q : string).

Lemma is_dir_true s p : is_dir s p = true <-> p ∈ dirs s.
Proof. unfold is_dir. by rewrite bool_decide_eq_true. Qed.

Lemma is_file_true s p : is_file s p = true <-> is_Some (files s !! p).
Proof. unfold is_file. by rewrite bool_decide_eq_true. Qed.

Lemma parent_length p q : parent p = Some q -> String.length q < String.length p.
Proof.
  revert q. induction p as [|c p IH]; intros q; simpl; [done|].
  destruct (parent p) as [q'|].
  - intros [= <-]. simpl. specialize (IH q' eq_refl). lia.
  - destruct (is_sep c); [|done]. intros [= <-]. simpl. lia.
Qed.

(** The fuel of [ancestors] is enough: more fuel gives the same chain. *)
Lemma parents_enough n p : String.length p <= n -> parents n p = ancestors p.
Proof.
  unfold ancestors. remember (String.length p) as k eqn:Hk.
  revert n p Hk. induction k as [k IH] using lt_wf_ind. intros n p -> Hle.
  destruct p as [|c p]; [by destruct n|].
  destruct n as [|n]; [simpl in Hle; lia|].
  cbn [String.length parents].
  destruct (parent (String c p)) as [q|] eqn:Hq; [|done].
  destruct (decide (q = "")); [done|]. f_equal.
  pose proof (parent_length _ _ Hq) as Hlen. cbn [String.length] in Hlen, Hle.
  rewrite (IH (String.length q)) by (cbn [String.length]; lia).
  symmetry. apply (IH (String.length q)); cbn [String.length]; lia.
Qed.

Lemma linked_parents n p : linked (p :: parents n p).
Proof.
  revert p. induction n as [|n IH]; intros p; [done|].
  cbn [parents]. destruct (parent p) as [q|] eqn:Hq; [|done].
  destruct (decide (q = "")); [done|].
  split; [done|]. apply IH.
Qed.

Lemma MkdirAll_chain_nil_inv s s' e : MkdirAll_chain s [] = (s', e) -> s' = s.
Proof. by intros [= <- <-]. Qed.

Lemma MkdirAll_chain_spec s chain :
  linked chain ->
  match MkdirAll_chain s chain with
  | (s', None) =>
      files s' = files s /\ dirs s ⊆ dirs s' /\
      (forall p above, chain = p :: above -> p ∈ dirs s')
  | (s', Some _) => s' = s
  end.
Proof.
  revert s. induction chain as [|p above IH]; intros s Hl; [done|].
  cbn [MkdirAll_chain].
  destruct (is_dir s p) eqn:Hd.
  { split; [done|]. split; [done|]. intros ? ? [= <- <-]. by apply is_dir_true. }
  destruct (is_file s p) eqn:Hf; [done|].
  destruct Hl as [Hp Hl]. specialize (IH s Hl).
  destruct (MkdirAll_chain s above) as [s' [e|]] eqn:Hc; [done|].
  destruct IH as (Hfiles & Hdirs & Hhead).
  unfold os_Mkdir.
  assert (is_file s' p = false) as Hf' by (unfold is_file in *; by rewrite Hfiles).
  rewrite Hf', orb_false_r.
  destruct (is_dir s' p) eqn:Hd'.
  { rewrite Hd'. cbn. split; [done|]. split; [done|]. intros ? ? [= <- <-]. by apply is_dir_true. }
  destruct (parent_errno s' p) as [e|] eqn:He.
  - rewrite Hd'. cbn. destruct above as [|q above'].
    + by apply MkdirAll_chain_nil_inv in Hc.
    + exfalso. destruct Hp as [Hpq Hq]. unfold parent_errno in He. rewrite Hpq in He.
      destruct (decide (q = "")); [done|].
      assert (is_dir s' q = true) as Hqd by (apply is_dir_true; eauto).
      by rewrite Hqd in He.
  - simpl. split; [done|]. split; [set_solver|]. intros ? ? [= <- <-]. set_solver.
Qed.

(** [os.MkdirAll] either leaves the directory in place, with the files
    untouched, or fails and changes nothing. *)
Lemma os_MkdirAll_spec s p :
  match os_MkdirAll s p with
  | (s', None) => files s' = files s /\ dirs s ⊆ dirs s' /\ p ∈ dirs s'
  | (s', Some _) => s' = s
  end.
Proof.
  unfold os_MkdirAll, ancestors.
  pose proof (MkdirAll_chain_spec s _ (linked_parents (String.length p) p)) as Hs.
  destruct (MkdirAll_chain s (p :: parents (String.length p) p)) as [s' [e|]]; [done|].
  destruct Hs as (? & ? & Hh). eauto.
Qed.

Lemma os_MkdirAll_is_dir s p : p ∈ dirs s -> os_MkdirAll s p = (s, None).
Proof.
  intros Hd. unfold os_MkdirAll. cbn [MkdirAll_chain].
  by apply is_dir_true in Hd as ->.
Qed.

Lemma os_OpenFile_openable s p :
  openable s p = true ->
  os_OpenFile s p = (mkFS (dirs s) (<[p := default "" (files s !! p)]> (files s)), None).
Proof.
  unfold openable, os_OpenFile. intros [Hd Hp]%andb_true_iff.
  apply negb_true_iff in Hd. apply bool_decide_eq_true in Hp. by rewrite Hd, Hp.
Qed.

Lemma os_OpenFile_not_openable s p :
  openable s p = false -> exists e, os_OpenFile s p = (s, Some e).
Proof.
  unfold openable, os_OpenFile. intros Ho.
  destruct (is_dir s p); [eauto|].
  destruct (parent_errno s p); [eauto|]. done.
Qed.

(** Opening and then writing is one overwrite of the file. *)
Lemma write_at_opened s p bytes :
  write_at (mkFS (dirs s) (<[p := default "" (files s !! p)]> (files s))) p bytes
  = write_at s p bytes.
Proof.
  unfold write_at; simpl. f_equal.
  rewrite lookup_insert_eq, insert_insert_eq. simpl. done.
Qed.

Lemma openable_openable_in s p : openable s p = openable_in (dirs s) p.
Proof.
  unfold openable, openable_in, parent_errno, is_dir. f_equal.
  destruct (parent p) as [q|]; [|done].
  destruct (decide (q = "")) as [->|Hq]; [done|].
  rewrite (bool_decide_eq_false_2 (q = "")) by done. cbn.
  destruct (bool_decide (q ∈ dirs s)); [done|].
  by destruct (is_file s q).
Qed.

Lemma FS_eta s : mkFS (dirs s) (files s) = s.
Proof. by destruct s. Qed.

End FSFacts.

(** * Writes at offset 0 *)

Section Overwrite.

Lemma string_length_app (a b : string) :
  String.length (a +:+ b) = String.length a + String.length b.
Proof. induction a as [|c a IH]; simpl; [done|]. by rewrite IH. Qed.

Lemma string_app_cons (x : ascii) (a b : string) : String x a +:+ b = String x (a +:+ b).
Proof. reflexivity. Qed.

Lemma string_app_assoc (a b c : string) : (a +:+ b) +:+ c = a +:+ (b +:+ c).
Proof. induction a as [|x a IH]; [done|]. rewrite !string_app_cons. f_equal. apply IH. Qed.

Lemma string_app_nil_r (a : string) : a +:+ "" = a.
Proof. induction a as [|x a IH]; [done|]. rewrite string_app_cons. f_equal. apply IH. Qed.

Lemma string_drop_nil (n : nat) : string_drop n "" = "".
Proof. by destruct n. Qed.

Lemma string_drop_ge (n : nat) (a : string) : String.length a <= n -> string_drop n a = "".
Proof.
  revert n. induction a as [|c a IH]; intros n Hn; [apply string_drop_nil|].
  destruct n as [|n]; simpl in *; [lia|]. apply IH. lia.
Qed.

Lemma string_length_drop (n : nat) (a : string) :
  String.length (string_drop n a) = String.length a - n.
Proof.
  revert a. induction n as [|n IH]; intros a; simpl; [lia|].
  destruct a as [|c a]; simpl; [done|]. apply IH.
Qed.

Lemma string_drop_app (n : nat) (a b : string) :
  string_drop n (a +:+ b) = string_drop n a +:+ string_drop (n - String.length a) b.
Proof.
  revert a. induction n as [|n IH]; intros a; [done|].
  destruct a as [|c a]; simpl; [done|]. apply IH.
Qed.

Lemma string_drop_drop (n k : nat) (a : string) :
  string_drop n (string_drop k a) = string_drop (k + n) a.
Proof.
  revert a. induction k as [|k IH]; intros a; [done|].
  destruct a as [|c a]; simpl; [apply string_drop_nil|]. apply IH.
Qed.

(** After the writes [news], a file holds [written news] and, behind it,
    what it held before. *)
Lemma overwrite_all_written (news : list string) (old : string) :
  overwrite_all news old
    = written news +:+ string_drop (String.length (written news)) old.
Proof.
  unfold overwrite_all. revert old.
  induction news as [|new news IH]; intros old; [done|].
  cbn [fold_left written]. rewrite IH. unfold overwrite.
  set (P := written news).
  rewrite string_drop_app, string_app_assoc. f_equal. f_equal.
  rewrite string_length_app, string_length_drop, string_drop_drop.
  f_equal. lia.
Qed.

Lemma overwrite_all_twice (news : list string) (old : string) :
  overwrite_all news (overwrite_all news old) = overwrite_all news old.
Proof.
  rewrite !overwrite_all_written. set (P := written news).
  rewrite string_drop_app, (string_drop_ge _ P) by lia.
  change ("" +:+ ?x) with x.
  rewrite string_drop_drop. f_equal. f_equal. lia.
Qed.

Lemma apply_writes_app ws1 ws2 (m : gmap string string) :
  apply_writes (ws1 ++ ws2) m = apply_writes ws2 (apply_writes ws1 m).
Proof.
  revert m. induction ws1 as [|[p b] ws1 IH]; intros m; [done|]. apply IH.
Qed.

Lemma apply_writes_lookup ws (m : gmap string string) (p : string) :
  apply_writes ws m !! p =
    match writes_to p ws with
    | [] => m !! p
    | news => Some (overwrite_all news (default "" (m !! p)))
    end.
Proof.
  revert m. induction ws as [|[q b] ws IH]; intros m; [done|].
  cbn [apply_writes writes_to]. rewrite IH.
  destruct (decide (q = p)) as [->|Hne].
  - rewrite lookup_insert_eq. by destruct (writes_to p ws).
  - by rewrite lookup_insert_ne.
Qed.

(** The same writes a second time leave every file as it is. *)
Lemma apply_writes_twice ws (m : gmap string string) :
  apply_writes ws (apply_writes ws m) = apply_writes ws m.
Proof.
  apply map_eq. intros p. rewrite !apply_writes_lookup.
  destruct (writes_to p ws) as [|new news]; [done|].
  set (news' := new :: news).
  change (default "" (Some ?x)) with x. by rewrite overwrite_all_twice.
Qed.

End Overwrite.

(** * The sequential program follows its steps *)

Ltac sys_step :=
  match goal with
  | |- context [os_Stat ?s ?d] => destruct (os_Stat s d) as [?|] eqn:?
  | |- context [match Err ?e with _ => _ end] => destruct (Err e) eqn:?
  | |- context [os_OpenFile ?s ?p] => destruct (os_OpenFile s p) as [? [?|]] eqn:?
  | |- context [os_Mkdir ?s ?p] => destruct (os_Mkdir s p) as [? [?|]] eqn:?
  | |- context [os_MkdirAll ?s ?p] => destruct (os_MkdirAll s p) as [? [?|]] eqn:?
  end; cbn.

Ltac unfold_go :=
  unfold bind, Printf, Stat, Mkdir, MkdirAll, OpenFile, Write, sys, log_Fatalln, ret,
    IsNotExist; cbn.

Section SequentialFollows.
Context `{GoLib}.
#[local] Arguments Sprintf : simpl never.
#[local] Arguments String.append : simpl never.
#[local] Arguments os_Stat : simpl never.
#[local] Arguments os_Mkdir : simpl never.
#[local] Arguments os_MkdirAll : simpl never.
#[local] Arguments os_OpenFile : simpl never.
#[local] Arguments write_at : simpl never.
#[local] Arguments Error : simpl never.

Lemma exec_ops_app s ops1 ops2 :
  exec_ops s (ops1 ++ ops2) =
    let '(s', ok) := exec_ops s ops1 in if ok then exec_ops s' ops2 else (s', false).
Proof.
  revert s. induction ops1 as [|o ops1 IH]; intros s; simpl.
  - by destruct (exec_ops s ops2).
  - destruct (exec_op s o) as [s' [|]]; [apply IH|done].
Qed.

Lemma Sequential_dumpData_follows data filename outputDir w :
  follows (Sequential.dumpData data filename outputDir w)
          (exec_ops (fs w) (SequentialSteps.dumpData data filename outputDir)).
Proof.
  unfold Sequential.dumpData, SequentialSteps.dumpData, follows. unfold_go.
  repeat sys_step; eauto.
Qed.

#[local] Arguments Sequential.dumpData : simpl never.
#[local] Arguments SequentialSteps.dumpData : simpl never.

Lemma Sequential_encodeToPNG_follows image data filename outputDir w :
  follows (Sequential.encodeToPNG image data filename outputDir w)
          (exec_ops (fs w) (SequentialSteps.encodeToPNG image data filename outputDir)).
Proof.
  unfold Sequential.encodeToPNG, SequentialSteps.encodeToPNG.
  rewrite exec_ops_app. unfold follows. unfold_go.
  destruct (png_Encode image) as [bytes [e|]]; cbn;
    repeat sys_step; eauto;
    match goal with
    | |- context [Sequential.dumpData ?d ?f ?o ?w'] =>
        apply (Sequential_dumpData_follows d f o w')
    end.
Qed.

Lemma Sequential_encodeToJPEG_follows image data filename outputDir w :
  follows (Sequential.encodeToJPEG image data filename outputDir w)
          (exec_ops (fs w) (SequentialSteps.encodeToJPEG image data filename outputDir)).
Proof.
  unfold Sequential.encodeToJPEG, SequentialSteps.encodeToJPEG.
  rewrite exec_ops_app. unfold follows. unfold_go.
  destruct (jpeg_Encode image 100) as [bytes [e|]]; cbn;
    repeat sys_step; eauto;
    match goal with
    | |- context [Sequential.dumpData ?d ?f ?o ?w'] =>
        apply (Sequential_dumpData_follows d f o w')
    end.
Qed.

Lemma Sequential_base64ToImage_follows data id outputDir w :
  follows (Sequential.base64ToImage data id outputDir w)
          (exec_ops (fs w) (SequentialSteps.base64ToImage data id outputDir)).
Proof.
  unfold Sequential.base64ToImage, SequentialSteps.base64ToImage. unfold_go.
  destruct (image_Decode data) as [image f|f err]; cbn.
  - destruct (decide (f = "jpeg")).
    + exact (Sequential_encodeToJPEG_follows image data id outputDir (mkWorld _ _ _)).
    + exact (Sequential_encodeToPNG_follows image data id outputDir (mkWorld _ _ _)).
  - exact (Sequential_dumpData_follows data id outputDir (mkWorld _ _ _)).
Qed.

End SequentialFollows.

(** * The goroutines run their steps and return *)

Section ConcurrentRuns.
Context `{GoLib}.
#[local] Arguments Sprintf : simpl never.
#[local] Arguments String.append : simpl never.
#[local] Arguments os_MkdirAll : simpl never.
#[local] Arguments os_OpenFile : simpl never.
#[local] Arguments write_at : simpl never.
#[local] Arguments Error : simpl never.

Lemma Concurrent_dumpData_runs data filename outputDir w :
  runs w (Concurrent.dumpData data filename outputDir w)
         (exec_ops (fs w) (ConcurrentSteps.dumpData data filename outputDir)) /\
  stdout (world_of (Concurrent.dumpData data filename outputDir w)) = stdout w.
Proof.
  unfold Concurrent.dumpData, ConcurrentSteps.dumpData, runs. unfold_go.
  repeat sys_step; eauto.
Qed.

#[local] Arguments Concurrent.dumpData : simpl never.
#[local] Arguments ConcurrentSteps.dumpData : simpl never.

Ltac dump_step :=
  match goal with
  | |- context [Concurrent.dumpData ?d ?f ?o ?w'] =>
      let Hd := fresh "Hd" in
      pose proof (Concurrent_dumpData_runs d f o w') as Hd;
      unfold runs in Hd; cbn in Hd;
      destruct (Concurrent.dumpData d f o w') as [? ?|? ?|? ?];
      cbn in Hd |- *; destruct Hd as ((?&?&?)&?); try done
  end.

Lemma Concurrent_encodeToPNG_runs image data filename outputDir w :
  runs w (Concurrent.encodeToPNG image data filename outputDir w)
         (exec_ops (fs w) (ConcurrentSteps.encodeToPNG image data filename outputDir)) /\
  stdout (world_of (Concurrent.encodeToPNG image data filename outputDir w)) = stdout w.
Proof.
  unfold Concurrent.encodeToPNG, ConcurrentSteps.encodeToPNG.
  rewrite exec_ops_app. unfold runs. unfold_go.
  destruct (png_Encode image) as [bytes [e|]]; cbn;
    repeat sys_step; eauto; dump_step.
Qed.

Lemma Concurrent_encodeToJPEG_runs image data filename outputDir w :
  runs w (Concurrent.encodeToJPEG image data filename outputDir w)
         (exec_ops (fs w) (ConcurrentSteps.encodeToJPEG image data filename outputDir)) /\
  stdout (world_of (Concurrent.encodeToJPEG image data filename outputDir w)) = stdout w.
Proof.
  unfold Concurrent.encodeToJPEG, ConcurrentSteps.encodeToJPEG.
  rewrite exec_ops_app. unfold runs. unfold_go.
  destruct (jpeg_Encode image 100) as [bytes [e|]]; cbn;
    repeat sys_step; eauto; dump_step.
Qed.

(** A goroutine never ends the process: it returns, and leaves the file
    system its steps leave. *)
Lemma Concurrent_base64ToImage_runs data id outputDir w :
  runs w (Concurrent.base64ToImage data id outputDir w)
         (exec_ops (fs w) (ConcurrentSteps.base64ToImage data id outputDir)).
Proof.
  unfold Concurrent.base64ToImage, ConcurrentSteps.base64ToImage. unfold_go.
  destruct (image_Decode data) as [image f|f err]; cbn.
  - destruct (decide (f = "jpeg")); [|destruct (decide (f = "png"))]; unfold bind; cbn.
    + pose proof (Concurrent_encodeToJPEG_runs image data id outputDir w) as [(?&?&?) _].
      destruct (Concurrent.encodeToJPEG image data id outputDir w); done.
    + pose proof (Concurrent_encodeToPNG_runs image data id outputDir w) as [(?&?&?) _].
      destruct (Concurrent.encodeToPNG image data id outputDir w); done.
    + pose proof (Concurrent_dumpData_runs data id outputDir w) as [(?&?&?) _].
      destruct (Concurrent.dumpData data id outputDir w); done.
  - dump_step. 
Qed.

End ConcurrentRuns.

(** * Steps on a directory that is in place *)

Section StepFacts.
Implicit Types (s : FS) (p d : string).

Lemma exec_EnsureDir_dir s how d : d ∈ dirs s -> exec_op s (EnsureDir how d) = (s, true).
Proof.
  intros Hd. destruct how; cbn [exec_op].
  - by rewrite os_MkdirAll_is_dir.
  - unfold os_Stat. by apply is_dir_true in Hd as ->.
  - unfold os_Stat. by apply is_dir_true in Hd as ->.
Qed.

Lemma exec_OpenWrite_openable s p bytes :
  openable s p = true -> exec_op s (OpenWrite p bytes) = (write_at s p bytes, true).
Proof.
  intros Ho. cbn [exec_op]. rewrite os_OpenFile_openable by done.
  by rewrite write_at_opened.
Qed.

Lemma exec_OpenWrite_not_openable s p bytes :
  openable s p = false -> exec_op s (OpenWrite p bytes) = (s, false).
Proof. intros Ho. cbn [exec_op]. by destruct (os_OpenFile_not_openable s p Ho) as [e ->]. Qed.

End StepFacts.

(** * C1: which file a decoded image goes to *)

Lemma string_app_inv_head (a x y : string) : a +:+ x = a +:+ y -> x = y.
Proof.
  induction a as [|c a IH]; [done|]. rewrite !string_app_cons. intros [= Heq]. by apply IH.
Qed.

(** The image file of a record is not its dump file. *)
Lemma image_file_not_dump_file (f outputDir id : string) :
  image_file f outputDir id ≠ dump_file outputDir id.
Proof.
  unfold image_file, dump_file.
  change (Sprintf "%s/%s.png" [outputDir; id]) with (outputDir +:+ String "/" (id +:+ ".png")).
  change (Sprintf "%s/%s.jpeg" [outputDir; id]) with (outputDir +:+ String "/" (id +:+ ".jpeg")).
  change (Sprintf "%s/%s.txt" [outputDir; id]) with (outputDir +:+ String "/" (id +:+ ".txt")).
  destruct (decide (f = "jpeg")); intros Heq;
    apply string_app_inv_head in Heq; injection Heq as Heq;
    apply string_app_inv_head in Heq; discriminate Heq.
Qed.

(** The toy decoder knows the registered formats only. *)
Lemma Toy_decodes_registered : decodes_registered (H:=Toy.lib).
Proof.
  intros data m f. cbn. unfold Toy.decode, registered_formats.
  destruct (String.prefix "iVBOR" data); [intros [= _ <-]; set_solver|].
  destruct (String.prefix "/9j/" data); [intros [= _ <-]; set_solver|done].
Qed.

(** C1. For a record whose payload decodes to an image, [image.Decode]
    knowing the formats the programs register: in both revisions the
    record goes to [encodeToJPEG] when the detected format is "jpeg" and to
    [encodeToPNG] for every other detected format, whatever the state of
    the file system.  With the output directory in place, the image file
    writable and the encoder succeeding, the one file written is
    [<outputDir>/<id>.jpeg], with the JPEG encoding of quality 100, for
    "jpeg", and [<outputDir>/<id>.png], with the PNG encoding, otherwise;
    the dump file [<outputDir>/<id>.txt] stays as it was. *)
Theorem C1_two_way_routing `{GoLib} (w : World) (data id outputDir : string)
    (m : Image) (f : string) :
  decodes_registered ->
  image_Decode data = DecodeOk m f ->
  let s_seq := fs (world_of (Sequential.base64ToImage data id outputDir w)) in
  let s_con := fs (world_of (Concurrent.base64ToImage data id outputDir w)) in
  (if decide (f = "jpeg")
   then s_seq = fs (world_of (Sequential.encodeToJPEG m data id outputDir w)) /\
        s_con = fs (world_of (Concurrent.encodeToJPEG m data id outputDir w))
   else s_seq = fs (world_of (Sequential.encodeToPNG m data id outputDir w)) /\
        s_con = fs (world_of (Concurrent.encodeToPNG m data id outputDir w))) /\
  forall bytes : string,
    outputDir ∈ dirs (fs w) ->
    openable (fs w) (image_file f outputDir id) = true ->
    encoding f m = (bytes, None) ->
    s_seq = write_at (fs w) (image_file f outputDir id) bytes /\
    s_con = write_at (fs w) (image_file f outputDir id) bytes /\
    files s_seq !! dump_file outputDir id = files (fs w) !! dump_file outputDir id /\
    files s_con !! dump_file outputDir id = files (fs w) !! dump_file outputDir id.
Proof.
  intros Hreg Hdec s_seq s_con.
  assert (s_seq = fst (exec_ops (fs w)
                         (if decide (f = "jpeg")
                          then SequentialSteps.encodeToJPEG m data id outputDir
                          else SequentialSteps.encodeToPNG m data id outputDir))) as Hseq.
  { subst s_seq. destruct (Sequential_base64ToImage_follows data id outputDir w) as [-> _].
    unfold SequentialSteps.base64ToImage. by rewrite Hdec. }
  assert (s_con = fst (exec_ops (fs w)
                         (if decide (f = "jpeg")
                          then ConcurrentSteps.encodeToJPEG m data id outputDir
                          else ConcurrentSteps.encodeToPNG m data id outputDir))) as Hcon.
  { subst s_con. destruct (Concurrent_base64ToImage_runs data id outputDir w) as [-> _].
    unfold ConcurrentSteps.base64ToImage. rewrite Hdec.
    destruct (decide (f = "jpeg")) as [|Hj]; [done|].
    destruct (decide (f = "png")) as [|Hp]; [done|].
    apply Hreg in Hdec. unfold registered_formats in Hdec.
    rewrite !elem_of_cons, elem_of_nil in Hdec. tauto. }
  split.
  - rewrite Hseq, Hcon. destruct (decide (f = "jpeg")).
    + destruct (Sequential_encodeToJPEG_follows m data id outputDir w) as [-> _].
      by destruct (Concurrent_encodeToJPEG_runs m data id outputDir w) as [[-> _] _].
    + destruct (Sequential_encodeToPNG_follows m data id outputDir w) as [-> _].
      by destruct (Concurrent_encodeToPNG_runs m data id outputDir w) as [[-> _] _].
  - intros bytes Hdir Himg Henc.
    assert (s_seq = write_at (fs w) (image_file f outputDir id) bytes /\
            s_con = write_at (fs w) (image_file f outputDir id) bytes) as [Hs Hc].
    { rewrite Hseq, Hcon. unfold encoding, image_file in *.
      unfold SequentialSteps.encodeToJPEG, SequentialSteps.encodeToPNG,
        ConcurrentSteps.encodeToJPEG, ConcurrentSteps.encodeToPNG.
      destruct (decide (f = "jpeg")); rewrite Henc; cbn [fst snd app exec_ops];
        by rewrite !exec_EnsureDir_dir, !exec_OpenWrite_openable. }
    rewrite Hs, Hc. repeat split; unfold write_at; cbn [files];
      apply lookup_insert_ne, image_file_not_dump_file.
Qed.

Lemma C1_two_way_routing_witness :
  let w := Toy.world_out "" in
  let s_seq := fs (world_of (Sequential.base64ToImage (H:=Toy.lib) "iVBORxx" "g" "out" w)) in
  let s_con := fs (world_of (Concurrent.base64ToImage (H:=Toy.lib) "iVBORxx" "g" "out" w)) in
  s_seq = write_at (fs w) "out/g.png" "PNG:xx" /\
  s_con = write_at (fs w) "out/g.png" "PNG:xx" /\
  files s_seq !! "out/g.txt" = files (fs w) !! "out/g.txt" /\
  files s_con !! "out/g.txt" = files (fs w) !! "out/g.txt".
Proof.
  apply (C1_two_way_routing (H:=Toy.lib) (Toy.world_out "") "iVBORxx" "g" "out" "xx" "png").
  - exact Toy_decodes_registered.
  - reflexivity.
  - apply (bool_decide_unpack _). vm_compute. exact I.
  - vm_compute. reflexivity.
  - reflexivity.
Defined.

(** * C3: what a failing record does to the run *)

Section RunFacts.
Context `{GoLib}.

(** The goroutines all return, whatever happens to their records. *)
Lemma Concurrent_run_goroutines_runs ran outputDir w :
  runs w (Concurrent.run_goroutines ran outputDir w)
         (exec_records (fs w) ((fun '(data, id) => ConcurrentSteps.base64ToImage data id outputDir) <$> ran), true).
Proof.
  revert w. induction ran as [|[data id] ran IH]; intros w; [done|].
  cbn [Concurrent.run_goroutines fmap list_fmap exec_records]. unfold bind.
  destruct (Concurrent_base64ToImage_runs data id outputDir w) as (Hfs & Hret & Herr).
  destruct (Concurrent.base64ToImage data id outputDir w) as [[] w1| |]; [|done..].
  cbn in Hfs, Herr. destruct (IH w1) as (Hfs' & Hret' & Herr').
  unfold runs. rewrite Hfs', Hret', Herr', Hfs, Herr. done.
Qed.

End RunFacts.

(** C3 (as amended). In the concurrent program no failure of a record, of
    whatever kind, ends the run: every goroutine returns and nothing is
    written to standard error.  In the sequential program an image file
    that cannot be opened ends the run at that record with exit status 1,
    the rows after it unread.  In the [csv-jpeg] precursor a payload that
    does not decode ends the run with exit status 1. *)
Theorem C3_failures_per_revision `{GoLib} (w : World) (outputDir id data id' data' : string)
    (m : Image) (f f' err : string) (rest : list RawRow) (ran : list (string * string)) :
  image_Decode data = DecodeOk m f ->
  outputDir ∈ dirs (fs w) ->
  openable (fs w) (image_file f outputDir id) = false ->
  image_Decode data' = DecodeErr f' err ->
  (returned (Concurrent.run_goroutines ran outputDir w) = true /\
   stderr (world_of (Concurrent.run_goroutines ran outputDir w)) = stderr w) /\
  (exists w', Sequential.read_loop 0 (Fields [id; data] :: rest) outputDir w = Exit 1 w' /\
              fs w' = fs w) /\
  exit_status (CsvJpeg.read_loop 0 (Fields [id'; data'] :: rest) w) = 1%Z.
Proof.
  intros Hdec Hdir Hopen Hdec'. split; [|split].
  - by destruct (Concurrent_run_goroutines_runs ran outputDir w) as (_ & ? & ?).
  - cbn [Sequential.read_loop check_fields]. cbn. unfold bind at 1.
    destruct (Sequential_base64ToImage_follows data id outputDir w) as [Hfs Hex].
    revert Hfs Hex. unfold SequentialSteps.base64ToImage. rewrite Hdec.
    unfold image_file in Hopen.
    unfold SequentialSteps.encodeToJPEG, SequentialSteps.encodeToPNG.
    destruct (decide (f = "jpeg")); cbn [app exec_ops];
      rewrite exec_EnsureDir_dir, exec_OpenWrite_not_openable by done;
      cbn; intros Hfs [w' Hex]; rewrite Hex in Hfs |- *; eauto.
  - cbn [CsvJpeg.read_loop check_fields]. cbn.
    unfold CsvJpeg.base64toJpg, CsvJpeg.dumpData. rewrite Hdec'.
    unfold bind, Printf, OpenFile, Write, sys, log_Fatalln, ret. cbn.
    match goal with |- context [os_OpenFile ?s ?p] => destruct (os_OpenFile s p) as [? [?|]] end; done.
Qed.

Lemma C3_failures_per_revision_witness :
  let w := Toy.world_out "" in
  (returned (Concurrent.run_goroutines (H:=Toy.lib) [("iVBORabc", "sub/x"); ("iVBORdef", "img2")] "out" w) = true /\
   stderr (world_of (Concurrent.run_goroutines (H:=Toy.lib) [("iVBORabc", "sub/x"); ("iVBORdef", "img2")] "out" w)) = []) /\
  (exists w', Sequential.read_loop (H:=Toy.lib) 0
                [Fields ["sub/x"; "iVBORabc"]; Fields ["img2"; "iVBORdef"]] "out" w = Exit 1 w' /\
              fs w' = fs w) /\
  exit_status (CsvJpeg.read_loop (H:=Toy.lib) 0
                 [Fields ["bad1"; "not-valid-base64!!"]; Fields ["img2"; "iVBORdef"]] w) = 1%Z.
Proof.
  apply (C3_failures_per_revision (H:=Toy.lib) (Toy.world_out "") "out" "sub/x" "iVBORabc"
           "bad1" "not-valid-base64!!" "abc" "png" "" "image: unknown format"
           [Fields ["img2"; "iVBORdef"]] [("iVBORabc", "sub/x"); ("iVBORdef", "img2")]).
  - reflexivity.
  - apply (bool_decide_unpack _). vm_compute. exact I.
  - vm_compute. reflexivity.
  - reflexivity.
Defined.

(** C3, as stated, fails on the sequential program: the input is well
    formed, the image file of the first record cannot be created, and the
    run ends there with status 1; the second record is never processed. *)
Lemma C3_counterexample :
  let csv := "sub/x,iVBORabc" +:+ nl +:+ "img2,iVBORdef" +:+ nl in
  let o := Sequential.main (H:=Toy.lib) "test.csv" "out" (Toy.world_out csv) in
  csv_lex (GoLib:=Toy.lib) csv = [Fields ["sub/x"; "iVBORabc"]; Fields ["img2"; "iVBORdef"]] /\
  exit_status o = 1%Z /\
  stderr (world_of o) = ["Couldn't write image file!" +:+ nl] /\
  files (fs (world_of o)) !! "out/img2.png" = None /\
  fs (world_of o) = fs (Toy.world_out csv).
Proof. vm_compute. done. Qed.

(** * C4: the exit status *)

Section ExitFacts.
Context `{GoLib}.

Lemma try_index_lt (record : list string) (i : nat) :
  i < length record -> exists x, try_index record i = inl x.
Proof.
  intros Hi. unfold try_index.
  destruct (lookup_lt_is_Some_2 record i Hi) as [x ->]. eauto.
Qed.

(** With at least two fields expected, the loop of the concurrent [main]
    ends at end of input exactly when every row has the expected number of
    fields, and with [log.Fatalln] otherwise; it does not panic. *)
Lemma Concurrent_read_loop_uniform (n : nat) (rows : list RawRow) spawned :
  2 <= n ->
  match Concurrent.read_loop (Z.of_nat n) rows spawned with
  | Concurrent.Dispatched _ => uniform n rows
  | Concurrent.DispatchFatal _ _ => ~ uniform n rows
  | Concurrent.DispatchPanic _ _ => False
  end.
Proof.
  intros Hn. revert spawned. induction rows as [|row rows IH]; intros spawned.
  { by apply Forall_nil. }
  cbn [Concurrent.read_loop].
  destruct row as [record|e].
  - rewrite check_fields_set by lia.
    destruct (Z.eqb_spec (Z.of_nat (length record)) (Z.of_nat n)) as [Heq|Hne].
    + destruct (try_index_lt record 0) as [id ->]; [lia|].
      destruct (try_index_lt record 1) as [data ->]; [lia|].
      specialize (IH (spawned ++ [(data, id)])%list).
      destruct (Concurrent.read_loop (Z.of_nat n) rows (spawned ++ [(data, id)])).
      * apply Forall_cons. split; [|done]. exists record. split; [done|lia].
      * intros [_ Hu]%Forall_cons. done.
      * done.
    + intros [(r & [= <-] & Hlen) _]%Forall_cons. lia.
  - cbn. intros [(r & ? & _) _]%Forall_cons. done.
Qed.

Lemma Concurrent_main_status schedule filepath outputDir w :
  exit_status (Concurrent.main schedule filepath outputDir w) =
    match read_file (fs w) filepath with
    | inr _ => 1%Z
    | inl text =>
        match Concurrent.read_loop 0 (csv_lex text) [] with
        | Concurrent.Dispatched _ => 0%Z
        | Concurrent.DispatchFatal _ _ => 1%Z
        | Concurrent.DispatchPanic _ _ => 2%Z
        end
    end.
Proof.
  unfold Concurrent.main, Concurrent.parseCSV, bind at 1 2, Printf. cbn.
  destruct (read_file (fs w) filepath) as [text|e]; [|done]. cbn.
  destruct (Concurrent.read_loop 0 (csv_lex text) []) as [sp|sp err|sp msg]; unfold bind;
    match goal with
    | |- context [Concurrent.run_goroutines ?l ?d ?w'] =>
        destruct (Concurrent_run_goroutines_runs l d w') as (_ & Hret & _);
        destruct (Concurrent.run_goroutines l d w'); done
    end.
Qed.

Lemma Sequential_base64ToImage_cases data id outputDir w :
  (exists w', Sequential.base64ToImage data id outputDir w = Ret tt w') \/
  (exists w', Sequential.base64ToImage data id outputDir w = Exit 1 w').
Proof.
  destruct (Sequential_base64ToImage_follows data id outputDir w) as [_ Hex].
  destruct (snd (exec_ops (fs w) (SequentialSteps.base64ToImage data id outputDir))).
  - left. destruct (Sequential.base64ToImage data id outputDir w) as [[] w1| |]; [eauto|done..].
  - by right.
Qed.

(** The loop of the sequential [main] returns only if every row has the
    expected number of fields. *)
Lemma Sequential_read_loop_uniform (n : nat) (rows : list RawRow) outputDir w :
  1 <= n ->
  exit_status (Sequential.read_loop (Z.of_nat n) rows outputDir w) = 0%Z -> uniform n rows.
Proof.
  intros Hn. revert w. induction rows as [|row rows IH]; intros w.
  { intros _. by apply Forall_nil. }
  cbn [Sequential.read_loop]. destruct row as [record|e]; [|done].
  rewrite check_fields_set by lia.
  destruct (Z.eqb_spec (Z.of_nat (length record)) (Z.of_nat n)) as [Heq|Hne]; [|done].
  unfold bind at 1, index. destruct (try_index record 0) as [id|msg]; [|done]. cbn.
  unfold bind at 1. destruct (try_index record 1) as [data|msg]; [|done]. cbn.
  unfold bind at 1.
  destruct (Sequential_base64ToImage_cases data id outputDir w) as [[w1 ->]|[w1 ->]]; [|done].
  intros Hs. apply Forall_cons. split; [|by eapply IH].
  exists record. split; [done|lia].
Qed.

Lemma Sequential_main_status filepath outputDir w text first rest :
  read_file (fs w) filepath = inl text ->
  csv_lex text = Fields first :: rest ->
  1 <= length first ->
  exit_status (Sequential.main filepath outputDir w) = 0%Z -> uniform (length first) rest.
Proof.
  intros Hread Hlex Hlen.
  unfold Sequential.main, Sequential.parseCSV, bind at 1 2, Printf. cbn.
  rewrite Hread. cbn. rewrite Hlex. cbn [Sequential.read_loop check_fields].
  cbn [Z.ltb Z.compare Z.eqb].
  unfold bind at 1 2, index. destruct (try_index first 0) as [id|msg]; [|done]. cbn.
  unfold bind at 1. destruct (try_index first 1) as [data|msg]; [|done]. cbn.
  unfold bind at 1.
  match goal with
  | |- context [Sequential.base64ToImage ?d ?i ?o ?w'] =>
      destruct (Sequential_base64ToImage_cases d i o w') as [[w1 ->]|[w1 ->]]; [|done]
  end.
  destruct (Sequential.read_loop (Z.of_nat (length first)) rest outputDir w1) eqn:Hl.
  - intros _. apply (Sequential_read_loop_uniform _ _ outputDir w1 Hlen). by rewrite Hl.
  - cbn. intros ->. apply (Sequential_read_loop_uniform _ _ outputDir w1 Hlen). by rewrite Hl.
  - done.
Qed.

(** The rows behind a refused row have no part in the run. *)
Lemma Concurrent_read_loop_stops (n : Z) good bad rest1 rest2 err spawned :
  (0 < n)%Z -> check_fields n bad = (ReadError err, n) ->
  Concurrent.read_loop n (good ++ bad :: rest1) spawned
  = Concurrent.read_loop n (good ++ bad :: rest2) spawned.
Proof.
  intros Hn Hbad. revert spawned. induction good as [|row good IH]; intros spawned.
  { cbn [app Concurrent.read_loop]. by rewrite Hbad. }
  cbn [app Concurrent.read_loop].
  pose proof (check_fields_keeps n row Hn) as Hk.
  destruct (check_fields n row) as [[record| |e] n']; cbn in Hk; subst n'; [|done..].
  destruct (try_index record 0) as [id|msg]; [|done].
  destruct (try_index record 1) as [data|msg]; [|done]. apply IH.
Qed.

#[local] Arguments Sequential.base64ToImage : simpl never.

Lemma Sequential_read_loop_stops (n : Z) good bad rest1 rest2 err outputDir w :
  (0 < n)%Z -> check_fields n bad = (ReadError err, n) ->
  Sequential.read_loop n (good ++ bad :: rest1) outputDir w
  = Sequential.read_loop n (good ++ bad :: rest2) outputDir w.
Proof.
  intros Hn Hbad. revert w. induction good as [|row good IH]; intros w.
  { cbn [app Sequential.read_loop]. by rewrite Hbad. }
  cbn [app Sequential.read_loop].
  pose proof (check_fields_keeps n row Hn) as Hk.
  destruct (check_fields n row) as [[record| |e] n']; cbn in Hk; subst n'; [|done..].
  unfold bind, index.
  destruct (try_index record 0) as [id|msg]; [|done]. cbn.
  destruct (try_index record 1) as [data|msg]; [|done]. cbn.
  destruct (Sequential.base64ToImage data id outputDir w); [apply IH|done..].
Qed.

End ExitFacts.

(** C4 (as amended). With a readable input whose first row has at least two
    fields, the concurrent program exits with status 0 exactly when every
    later row has as many fields as the first, and with status 1 otherwise;
    the sequential program exits with a status other than 0 in that case as
    well.  Rows of more than two fields are accepted when they all have the
    same number of fields.  An input file that cannot be read ends both
    programs with status 1.  The rows behind a row that the reader refuses
    have no part in the run. *)
Theorem C4_exit_status_per_revision `{GoLib} (schedule : list (string * string) -> list (string * string))
    (w : World) (filepath outputDir text : string) (first : list string) (rest : list RawRow) :
  read_file (fs w) filepath = inl text ->
  csv_lex text = Fields first :: rest ->
  2 <= length first ->
  (exit_status (Concurrent.main schedule filepath outputDir w) = 0%Z
     <-> uniform (length first) rest) /\
  (~ uniform (length first) rest ->
     exit_status (Concurrent.main schedule filepath outputDir w) = 1%Z /\
     exit_status (Sequential.main filepath outputDir w) ≠ 0%Z) /\
  (forall w0 e, read_file (fs w0) filepath = inr e ->
     exit_status (Concurrent.main schedule filepath outputDir w0) = 1%Z /\
     exit_status (Sequential.main filepath outputDir w0) = 1%Z) /\
  (forall good bad rest1 rest2 err w0,
     let n := Z.of_nat (length first) in
     check_fields n bad = (ReadError err, n) ->
     Concurrent.read_loop n (good ++ bad :: rest1) []
       = Concurrent.read_loop n (good ++ bad :: rest2) [] /\
     Sequential.read_loop n (good ++ bad :: rest1) outputDir w0
       = Sequential.read_loop n (good ++ bad :: rest2) outputDir w0).
Proof.
  intros Hread Hlex Hlen.
  assert (forall good bad rest1 rest2 err w0,
     let n := Z.of_nat (length first) in
     check_fields n bad = (ReadError err, n) ->
     Concurrent.read_loop n (good ++ bad :: rest1) []
       = Concurrent.read_loop n (good ++ bad :: rest2) [] /\
     Sequential.read_loop n (good ++ bad :: rest1) outputDir w0
       = Sequential.read_loop n (good ++ bad :: rest2) outputDir w0) as Hstops.
  { intros good bad rest1 rest2 err w0 n Hbad. split.
    - by apply (Concurrent_read_loop_stops n good bad rest1 rest2 err); [lia|].
    - by apply (Sequential_read_loop_stops n good bad rest1 rest2 err); [lia|]. }
  assert (forall w0 e, read_file (fs w0) filepath = inr e ->
            exit_status (Concurrent.main schedule filepath outputDir w0) = 1%Z /\
            exit_status (Sequential.main filepath outputDir w0) = 1%Z) as Hunreadable.
  { intros w0 e He. rewrite Concurrent_main_status, He. split; [done|].
    unfold Sequential.main, Sequential.parseCSV, bind at 1 2, Printf. cbn.
    by rewrite He. }
  cut ((exit_status (Concurrent.main schedule filepath outputDir w) = 0%Z
          <-> uniform (length first) rest) /\
       (~ uniform (length first) rest ->
          exit_status (Concurrent.main schedule filepath outputDir w) = 1%Z /\
          exit_status (Sequential.main filepath outputDir w) ≠ 0%Z)).
  { intros [? ?]. auto. }
  rewrite Concurrent_main_status, Hread, Hlex.
  cbn [Concurrent.read_loop check_fields]. cbn [Z.ltb Z.compare Z.eqb].
  destruct (try_index_lt first 0) as [id ->]; [lia|].
  destruct (try_index_lt first 1) as [data ->]; [lia|].
  pose proof (Concurrent_read_loop_uniform (length first) rest ([] ++ [(data, id)])%list Hlen) as Hu.
  destruct (Concurrent.read_loop (Z.of_nat (length first)) rest ([] ++ [(data, id)])).
  - split; [done|]. done.
  - split; [split; [done|]; done|].
    intros _. split; [done|]. intros Hs. apply Hu.
    eapply Sequential_main_status; eauto. lia.
  - done.
Qed.

Lemma C4_exit_status_per_revision_witness :
  let csv := "a,b,c" +:+ nl +:+ "d,e" +:+ nl in
  exit_status (Concurrent.main (H:=Toy.lib) id "test.csv" "out" (Toy.world csv)) = 1%Z /\
  exit_status (Sequential.main (H:=Toy.lib) "test.csv" "out" (Toy.world csv)) ≠ 0%Z.
Proof.
  apply (C4_exit_status_per_revision (H:=Toy.lib) id (Toy.world ("a,b,c" +:+ nl +:+ "d,e" +:+ nl))
           "test.csv" "out" ("a,b,c" +:+ nl +:+ "d,e" +:+ nl) ["a"; "b"; "c"] [Fields ["d"; "e"]]).
  - reflexivity.
  - reflexivity.
  - simpl. lia.
  - intros [(r & [= <-] & Hlen) _]%Forall_cons. simpl in Hlen. lia.
Defined.

(** C4, as stated, fails: a file whose rows all have three fields is not of
    the two-field shape, and the run completes with status 0, the first two
    fields of each row taken as identifier and payload. *)
Lemma C4_counterexample :
  let csv := "a,b,c" +:+ nl +:+ "d,e,f" +:+ nl in
  let o := Concurrent.main (H:=Toy.lib) id "test.csv" "out" (Toy.world csv) in
  csv_lex (GoLib:=Toy.lib) csv = [Fields ["a"; "b"; "c"]; Fields ["d"; "e"; "f"]] /\
  exit_status o = 0%Z /\
  files (fs (world_of o)) !! "out/a.txt" = Some ("b" +:+ nl) /\
  files (fs (world_of o)) !! "out/d.txt" = Some ("e" +:+ nl) /\
  exit_status (Sequential.main (H:=Toy.lib) "test.csv" "out"
                 (Toy.world_out ("a,iVBORb,c" +:+ nl))) = 0%Z.
Proof. vm_compute. done. Qed.

(** * C2, C6, C9: the fallback dump and the output directory in the
      sequential program *)

(** C2. The claim does not hold for the sequential program: its [dumpData]
    formats the name of the dump file with one operand for two verbs, so the
    only file it can write is [<filename>/%!s(MISSING).txt], outside the
    output directory.  On the record [bad1,not-valid-base64!!], with the
    output directory in place, that file cannot be opened and the run ends
    with status 1; no [out/bad1.txt] is written. *)
Theorem C2_sequential_dump_misses_output_dir :
  (forall data filename outputDir w,
     let o := Sequential.dumpData data filename outputDir w in
     fs (world_of o) = fs w \/
     fs (world_of o) = write_at (fs w) (filename +:+ "/%!s(MISSING).txt") (data +:+ nl)) /\
  (let csv := "bad1,not-valid-base64!!" +:+ nl in
   let o := Sequential.main (H:=Toy.lib) "test.csv" "out" (Toy.world_out csv) in
   image_Decode (GoLib:=Toy.lib) "not-valid-base64!!" = DecodeErr "" "image: unknown format" /\
   exit_status o = 1%Z /\
   stderr (world_of o) = ["open bad1/%!s(MISSING).txt: no such file or directory" +:+ nl] /\
   files (fs (world_of o)) !! "out/bad1.txt" = None /\
   fs (world_of o) = fs (Toy.world_out csv)).
Proof.
  split; [|vm_compute; done].
  intros data filename outputDir w o. subst o.
  destruct (Sequential_dumpData_follows data filename outputDir w) as [-> _].
  unfold SequentialSteps.dumpData. cbn [exec_ops].
  change (Sprintf "%s/%s.txt" [filename]) with (filename +:+ "/%!s(MISSING).txt").
  change (exec_op (fs w) (EnsureDir ByStat outputDir))
    with (fs w, negb (IsNotExist (os_Stat (fs w) outputDir))).
  destruct (IsNotExist (os_Stat (fs w) outputDir)); cbn [negb fst]; [by left|].
  destruct (openable (fs w) (filename +:+ "/%!s(MISSING).txt")) eqn:Ho.
  - rewrite exec_OpenWrite_openable by done. by right.
  - rewrite exec_OpenWrite_not_openable by done. by left.
Qed.

(** C6. The claim does not hold for the sequential program.  When
    [os.Stat] reports the output directory missing, [encodeToJPEG] and
    [dumpData] never create it: they print "Failed create output directory"
    and end the run with status 1, the file system untouched.
    [encodeToPNG] creates it with [os.Mkdir], which does not make the
    directories above: unless the directory above is in place it ends the
    run in the same way. *)
Theorem C6_sequential_output_dir_not_created `{GoLib} (w : World) (image : Image)
    (data filename outputDir : string) :
  IsNotExist (os_Stat (fs w) outputDir) = true ->
  (exists w', Sequential.encodeToJPEG image data filename outputDir w = Exit 1 w' /\
              fs w' = fs w) /\
  (exists w', Sequential.dumpData data filename outputDir w = Exit 1 w' /\
              fs w' = fs w) /\
  (parent_errno (fs w) outputDir = None \/
   exists w', Sequential.encodeToPNG image data filename outputDir w = Exit 1 w' /\
              fs w' = fs w).
Proof.
  intros Hstat. split; [|split].
  - destruct (Sequential_encodeToJPEG_follows image data filename outputDir w) as [Hfs Hend].
    revert Hfs Hend. unfold SequentialSteps.encodeToJPEG. cbn [app exec_ops exec_op].
    rewrite Hstat. cbn. intros Hfs [w' Hend]. rewrite Hend in Hfs. eauto.
  - destruct (Sequential_dumpData_follows data filename outputDir w) as [Hfs Hend].
    revert Hfs Hend. unfold SequentialSteps.dumpData. cbn [exec_ops exec_op].
    rewrite Hstat. cbn. intros Hfs [w' Hend]. rewrite Hend in Hfs. eauto.
  - destruct (parent_errno (fs w) outputDir) as [e|] eqn:Hpar; [right|by left].
    destruct (Sequential_encodeToPNG_follows image data filename outputDir w) as [Hfs Hend].
    revert Hfs Hend. unfold SequentialSteps.encodeToPNG. cbn [app exec_ops exec_op].
    rewrite Hstat. unfold os_Mkdir. rewrite Hpar.
    destruct (is_dir (fs w) outputDir || is_file (fs w) outputDir);
      cbn; intros Hfs [w' Hend]; rewrite Hend in Hfs; eauto.
Qed.

Lemma C6_sequential_output_dir_not_created_witness :
  let w := Toy.world "" in
  (exists w', Sequential.encodeToJPEG (H:=Toy.lib) "abc" "/9j/abc" "img2" "out/a/b" w = Exit 1 w' /\
              fs w' = fs w) /\
  (exists w', Sequential.dumpData "/9j/abc" "img2" "out/a/b" w = Exit 1 w' /\
              fs w' = fs w) /\
  (parent_errno (fs w) "out/a/b" = None \/
   exists w', Sequential.encodeToPNG (H:=Toy.lib) "abc" "/9j/abc" "img2" "out/a/b" w = Exit 1 w' /\
              fs w' = fs w).
Proof.
  apply (C6_sequential_output_dir_not_created (H:=Toy.lib) (Toy.world "") "abc" "/9j/abc" "img2"
           "out/a/b").
  vm_compute. reflexivity.
Defined.

(** C9. The claim does not hold for the sequential program.  When the
    encoder fails after the image file was opened, the bytes written so far
    stay in the image file, but the dump goes through the same [dumpData] as
    in C2, to [<id>/%!s(MISSING).txt]: unless a directory named after the
    identifier exists, nothing is dumped and the run ends with status 1. *)
Theorem C9_sequential_no_dump_after_failed_encode `{GoLib} (w : World)
    (data id outputDir : string) (m : Image) (f bytes err : string) :
  image_Decode data = DecodeOk m f ->
  encoding f m = (bytes, Some err) ->
  outputDir ∈ dirs (fs w) ->
  openable (fs w) (image_file f outputDir id) = true ->
  openable (fs w) (id +:+ "/%!s(MISSING).txt") = false ->
  exists w', Sequential.base64ToImage data id outputDir w = Exit 1 w' /\
             fs w' = write_at (fs w) (image_file f outputDir id) bytes.
Proof.
  intros Hdec Henc Hdir Himg Hdump.
  destruct (Sequential_base64ToImage_follows data id outputDir w) as [Hfs Hend].
  revert Hfs Hend. unfold SequentialSteps.base64ToImage. rewrite Hdec.
  unfold encoding, image_file in *.
  unfold SequentialSteps.encodeToJPEG, SequentialSteps.encodeToPNG, SequentialSteps.dumpData.
  change (Sprintf "%s/%s.txt" [id]) with (id +:+ "/%!s(MISSING).txt").
  assert (forall p, openable (write_at (fs w) p bytes) (id +:+ "/%!s(MISSING).txt") = false)
    as Hdump' by (intros p; by rewrite openable_openable_in in *).
  destruct (decide (f = "jpeg")); rewrite Henc; cbn [fst snd app exec_ops];
    rewrite !exec_EnsureDir_dir, !exec_OpenWrite_openable by done;
    rewrite exec_EnsureDir_dir, exec_OpenWrite_not_openable by done;
    cbn; intros Hfs [w' Hend]; rewrite Hend in Hfs; eauto.
Qed.

Lemma C9_sequential_no_dump_after_failed_encode_witness :
  let w := Toy.world_out "" in
  (exists w', Sequential.base64ToImage (H:=Toy.lib) "/9j/Xyz" "j" "out" w = Exit 1 w' /\
              fs w' = write_at (fs w) "out/j.jpeg" "JPEG100") /\
  files (write_at (fs w) "out/j.jpeg" "JPEG100") !! "out/j.txt" = None.
Proof.
  split.
  - apply (C9_sequential_no_dump_after_failed_encode (H:=Toy.lib) (Toy.world_out "")
             "/9j/Xyz" "j" "out" "Xyz" "jpeg" "JPEG100" "short write").
    + reflexivity.
    + reflexivity.
    + apply (bool_decide_unpack _). vm_compute. exact I.
    + vm_compute. reflexivity.
    + vm_compute. reflexivity.
  - vm_compute. reflexivity.
Defined.

(** * The same records in the concurrent program *)

Section ConcurrentDumps.
Context `{GoLib}.

Lemma overwrite_fresh (new : string) : overwrite "" new = new.
Proof.
  unfold overwrite. rewrite string_drop_nil.
  induction new as [|c new IH]; [done|]. by rewrite string_app_cons, IH.
Qed.

(** A file that did not exist holds exactly what was written. *)
Lemma write_at_fresh s p bytes :
  files s !! p = None -> files (write_at s p bytes) !! p = Some bytes.
Proof.
  intros Hp. unfold write_at; cbn. by rewrite lookup_insert_eq, Hp, overwrite_fresh.
Qed.

(** A payload that does not decode: the output directory is made, with the
    directories above it, and the payload and a newline are written to
    [<outputDir>/<id>.txt]; nothing else changes. *)
Lemma Concurrent_dumps_undecodable w data id outputDir f err s' :
  image_Decode data = DecodeErr f err ->
  os_MkdirAll (fs w) outputDir = (s', None) ->
  openable s' (dump_file outputDir id) = true ->
  fs (world_of (Concurrent.base64ToImage data id outputDir w))
    = write_at s' (dump_file outputDir id) (data +:+ nl).
Proof.
  intros Hdec Hmk Hopen.
  destruct (Concurrent_base64ToImage_runs data id outputDir w) as [-> _].
  unfold ConcurrentSteps.base64ToImage, ConcurrentSteps.dumpData. rewrite Hdec.
  cbn [exec_ops]. change (exec_op (fs w) (EnsureDir ByMkdirAll outputDir))
    with (let '(s1, e) := os_MkdirAll (fs w) outputDir in (s1, bool_decide (e = None))).
  rewrite Hmk. cbn [bool_decide decide_rel]. rewrite bool_decide_eq_true_2 by done.
  by rewrite exec_OpenWrite_openable.
Qed.

(** An encoder that fails after the image file was opened: the bytes
    written so far stay, and the payload is dumped next to them. *)
Lemma Concurrent_dumps_after_failed_encode w data id outputDir m f bytes err :
  image_Decode data = DecodeOk m f ->
  f = "jpeg" \/ f = "png" ->
  encoding f m = (bytes, Some err) ->
  outputDir ∈ dirs (fs w) ->
  openable (fs w) (image_file f outputDir id) = true ->
  openable (fs w) (dump_file outputDir id) = true ->
  fs (world_of (Concurrent.base64ToImage data id outputDir w))
    = write_at (write_at (fs w) (image_file f outputDir id) bytes)
               (dump_file outputDir id) (data +:+ nl).
Proof.
  intros Hdec Hf Henc Hdir Himg Hdump.
  destruct (Concurrent_base64ToImage_runs data id outputDir w) as [-> _].
  unfold ConcurrentSteps.base64ToImage. rewrite Hdec.
  unfold encoding, image_file, dump_file in *.
  unfold ConcurrentSteps.encodeToJPEG, ConcurrentSteps.encodeToPNG, ConcurrentSteps.dumpData.
  assert (forall p, openable (write_at (fs w) p bytes) (Sprintf "%s/%s.txt" [outputDir; id]) = true)
    as Hdump' by (intros p; by rewrite openable_openable_in in *).
  destruct (decide (f = "jpeg")) as [->|Hj].
  - rewrite Henc. cbn [fst snd app exec_ops].
    rewrite !exec_EnsureDir_dir, !exec_OpenWrite_openable by done.
    by rewrite exec_EnsureDir_dir, exec_OpenWrite_openable.
  - destruct Hf as [->| ->]; [done|]. rewrite decide_True by done.
    rewrite Henc. cbn [fst snd app exec_ops].
    rewrite !exec_EnsureDir_dir, !exec_OpenWrite_openable by done.
    by rewrite exec_EnsureDir_dir, exec_OpenWrite_openable.
Qed.

End ConcurrentDumps.

(** With no directory at all, the concurrent program makes [out], [out/a]
    and [out/a/b] before it writes. *)
Example Concurrent_makes_directories_above :
  let o := Concurrent.main (H:=Toy.lib) id "test.csv" "out/a/b"
             (Toy.world ("img1,iVBORabc" +:+ nl +:+ "bad1,not-valid-base64!!" +:+ nl)) in
  exit_status o = 0%Z /\
  dirs (fs (world_of o)) = {[ "out"; "out/a"; "out/a/b" ]} /\
  files (fs (world_of o)) !! "out/a/b/img1.png" = Some "PNG:abc" /\
  files (fs (world_of o)) !! "out/a/b/bad1.txt" = Some ("not-valid-base64!!" +:+ nl) /\
  files (fs (world_of o)) !! "out/a/b/bad1.png" = None.
Proof. vm_compute. done. Qed.

(** * C8: what the concurrent program prints for a dumped record *)

#[local] Arguments Concurrent.dumpData : simpl never.

(** C8. The claim does not hold for the concurrent program: for a record
    whose payload does not decode, the goroutine prints the reason and
    nothing else; the line with the path of the dump file, which [dumpData]
    returns, is dropped, and so are the lines collected before. *)
Theorem C8_concurrent_dump_path_not_printed `{GoLib} (w : World) (data id outputDir f err : string) :
  image_Decode data = DecodeErr f err ->
  stdout (world_of (Concurrent.base64ToImage data id outputDir w))
    = (stdout w ++ [Sprintf ("Parsing error: %s" +:+ nl) [err]])%list.
Proof.
  intros Hdec. unfold Concurrent.base64ToImage. rewrite Hdec.
  unfold bind at 1, Printf. cbn. unfold bind.
  match goal with
  | |- context [Concurrent.dumpData ?d ?i ?o ?w'] =>
      destruct (Concurrent_dumpData_runs d i o w') as [(_ & Hret & _) Hout];
      destruct (Concurrent.dumpData d i o w'); done
  end.
Qed.

Lemma C8_concurrent_dump_path_not_printed_witness :
  let w := Toy.world_out "" in
  let o := Concurrent.base64ToImage (H:=Toy.lib) "not-valid-base64!!" "bad1" "out" w in
  stdout (world_of o) = ["Parsing error: image: unknown format" +:+ nl] /\
  files (fs (world_of o)) !! "out/bad1.txt" = Some ("not-valid-base64!!" +:+ nl).
Proof.
  split.
  - apply (C8_concurrent_dump_path_not_printed (H:=Toy.lib) (Toy.world_out "")
             "not-valid-base64!!" "bad1" "out" "" "image: unknown format").
    reflexivity.
  - vm_compute. reflexivity.
Defined.

(** * C10: the fields of a record *)

(** C10. The claim does not hold: when the first row has a single field the
    reader returns it without error, and all three [main] functions panic
    on [record[1]]. *)
Theorem C10_one_field_row_panics `{GoLib} (schedule : list (string * string) -> list (string * string))
    (w : World) (filepath outputDir text x : string) (rest : list RawRow) :
  read_file (fs w) filepath = inl text ->
  csv_lex text = Fields [x] :: rest ->
  let msg := "runtime error: index out of range [1] with length 1" in
  nth_read (NewReader text) 0 = ReadRecord [x] /\
  panic_of (Sequential.main filepath outputDir w) = Some msg /\
  panic_of (Concurrent.main schedule filepath outputDir w) = Some msg /\
  panic_of (CsvJpeg.main filepath w) = Some msg.
Proof.
  intros Hread Hlex msg. split; [|split; [|split]].
  - unfold nth_read, NewReader. rewrite Hlex. reflexivity.
  - unfold Sequential.main, Sequential.parseCSV, bind at 1 2, Printf. cbn.
    rewrite Hread. cbn. rewrite Hlex. reflexivity.
  - unfold Concurrent.main, Concurrent.parseCSV, bind at 1 2, Printf. cbn.
    rewrite Hread. cbn. rewrite Hlex. cbn [Concurrent.read_loop check_fields].
    cbn [Z.ltb Z.compare Z.eqb length Z.of_nat].
    change (try_index [x] 0) with (@inl string string x). cbn iota.
    change (try_index [x] 1) with (@inr string string msg). cbn iota.
    unfold bind.
    match goal with
    | |- context [Concurrent.run_goroutines ?l ?d ?w'] =>
        destruct (Concurrent_run_goroutines_runs l d w') as (_ & Hret & _);
        destruct (Concurrent.run_goroutines l d w'); done
    end.
  - unfold CsvJpeg.main, CsvJpeg.parseCSV, bind at 1 2, Printf. cbn.
    rewrite Hread. cbn. rewrite Hlex. reflexivity.
Qed.

Lemma C10_one_field_row_panics_witness :
  let w := Toy.world ("abc" +:+ nl +:+ "def" +:+ nl) in
  let msg := "runtime error: index out of range [1] with length 1" in
  nth_read (NewReader (H:=Toy.lib) ("abc" +:+ nl +:+ "def" +:+ nl)) 0 = ReadRecord ["abc"] /\
  panic_of (Sequential.main (H:=Toy.lib) "test.csv" "out" w) = Some msg /\
  panic_of (Concurrent.main (H:=Toy.lib) id "test.csv" "out" w) = Some msg /\
  panic_of (CsvJpeg.main (H:=Toy.lib) "test.csv" w) = Some msg.
Proof.
  apply (C10_one_field_row_panics (H:=Toy.lib) id (Toy.world ("abc" +:+ nl +:+ "def" +:+ nl))
           "test.csv" "out" ("abc" +:+ nl +:+ "def" +:+ nl) "abc" [Fields ["def"]]);
    reflexivity.
Defined.

(** * C7: running the program a second time *)


(** Runs that start with the output directory leave the same files when
    they are repeated. *)
Section Rerun.
Variable D : string.
Variable settled : FS -> Prop.
Variable allowed : dirop -> Prop.
Hypothesis settled_noop : forall s how,
  allowed how -> settled s -> exec_op s (EnsureDir how D) = (s, true).
Hypothesis settled_write : forall s p bytes, settled s -> settled (write_at s p bytes).
Hypothesis ensure_ok : forall s how s',
  allowed how -> exec_op s (EnsureDir how D) = (s', true) -> settled s' /\ files s' = files s.
Hypothesis ensure_fail : forall s how s',
  allowed how -> exec_op s (EnsureDir how D) = (s', false) -> s' = s.

(** Once the output directory is settled, the steps are the writes that the
    directories allow. *)
Lemma settled_exec_ops s ops :
  settled s -> Forall (good_op allowed D) ops ->
  exec_ops s ops =
    (mkFS (dirs s) (apply_writes (fst (writes_of (dirs s) ops)) (files s)),
     snd (writes_of (dirs s) ops)) /\
  settled (fst (exec_ops s ops)).
Proof.
  revert s. induction ops as [|o ops IH]; intros s Hs Hgood.
  { cbn. by rewrite FS_eta. }
  apply Forall_cons in Hgood as [Ho Hgood].
  destruct o as [how d|p bytes].
  - destruct Ho as [Hallow ->]. cbn [exec_ops writes_of].
    rewrite settled_noop by done. by apply IH.
  - cbn [exec_ops writes_of]. rewrite <- openable_openable_in.
    destruct (openable s p) eqn:Hop.
    + rewrite exec_OpenWrite_openable by done.
      destruct (IH (write_at s p bytes)) as [-> Hset]; [by apply settled_write|done|].
      split; [|done]. cbn [write_at dirs files].
      by destruct (writes_of (dirs s) ops).
    + rewrite exec_OpenWrite_not_openable by done. cbn. by rewrite FS_eta.
Qed.

Lemma settled_exec_records s records :
  settled s -> Forall (Forall (good_op allowed D)) records ->
  exec_records s records =
    mkFS (dirs s)
      (apply_writes (concat ((fun r => fst (writes_of (dirs s) r)) <$> records)) (files s)) /\
  settled (exec_records s records).
Proof.
  revert s. induction records as [|r records IH]; intros s Hs Hgood.
  { cbn. by rewrite FS_eta. }
  apply Forall_cons in Hgood as [Hr Hgood]. cbn [exec_records fmap list_fmap concat].
  destruct (settled_exec_ops s r Hs Hr) as [Hex Hset]. rewrite Hex in Hset |- *.
  cbn [fst] in *. destruct (IH _ Hset Hgood) as [-> Hset']. split; [|done].
  cbn [dirs files]. by rewrite apply_writes_app.
Qed.

(** The sequential shape: one list of steps, ended by the first failure. *)
Lemma rerun_exec_ops s ops :
  (ops = [] \/ starts_with_dir allowed D ops) ->
  fst (exec_ops (fst (exec_ops s ops)) ops) = fst (exec_ops s ops).
Proof.
  intros [->|(how & rest & -> & Hallow & Hgood)]; [done|].
  cbn [exec_ops]. destruct (exec_op s (EnsureDir how D)) as [s' [|]] eqn:Hens.
  - destruct (ensure_ok _ _ _ Hallow Hens) as [Hset Hfiles].
    destruct (settled_exec_ops s' rest Hset Hgood) as [Hex Hset1]. rewrite Hex in Hset1 |- *.
    cbn [fst] in *. rewrite settled_noop by done.
    destruct (settled_exec_ops _ rest Hset1 Hgood) as [-> _].
    cbn [fst dirs files]. by rewrite apply_writes_twice.
  - pose proof (ensure_fail _ _ _ Hallow Hens) as ->.
    cbn [fst exec_ops]. by rewrite Hens.
Qed.

Lemma starts_with_dir_good ops :
  starts_with_dir allowed D ops -> Forall (good_op allowed D) ops.
Proof. intros (how & rest & -> & Hallow & Hgood). by apply Forall_cons. Qed.

Lemma failed_exec_records s how records :
  allowed how -> (forall h1 h2, allowed h1 -> allowed h2 -> h1 = h2) ->
  exec_op s (EnsureDir how D) = (s, false) ->
  Forall (starts_with_dir allowed D) records ->
  exec_records s records = s.
Proof.
  intros Hallow Hone Hens. induction 1 as [|r records Hr _ IH]; [done|].
  destruct Hr as (how' & rest & -> & Hallow' & _).
  rewrite (Hone how' how) by done. cbn [exec_records exec_ops]. by rewrite Hens.
Qed.

(** The concurrent shape: every record runs, each to its first failure. *)
Lemma rerun_exec_records s records :
  (forall h1 h2, allowed h1 -> allowed h2 -> h1 = h2) ->
  Forall (starts_with_dir allowed D) records ->
  exec_records (exec_records s records) records = exec_records s records.
Proof.
  intros Hone Hrecs. destruct records as [|r records]; [done|].
  pose proof Hrecs as Hall. apply Forall_cons in Hrecs as [Hr Hrecs].
  destruct Hr as (how & rest & -> & Hallow & Hgood).
  destruct (exec_op s (EnsureDir how D)) as [s' [|]] eqn:Hens.
  - destruct (ensure_ok _ _ _ Hallow Hens) as [Hset Hfiles].
    assert (exec_records s ((EnsureDir how D :: rest) :: records)
            = exec_records s' ((EnsureDir how D :: rest) :: records)) as ->.
    { cbn [exec_records exec_ops]. by rewrite Hens, settled_noop. }
    assert (Forall (Forall (good_op allowed D)) ((EnsureDir how D :: rest) :: records)) as Hgoods.
    { eapply Forall_impl; [exact Hall|]. apply starts_with_dir_good. }
    destruct (settled_exec_records s' _ Hset Hgoods) as [-> Hset1].
    destruct (settled_exec_records _ _ Hset1 Hgoods) as [-> _].
    cbn [dirs files]. by rewrite apply_writes_twice.
  - pose proof (ensure_fail _ _ _ Hallow Hens) as ->.
    by rewrite !(failed_exec_records s how _ Hallow Hone Hens Hall).
Qed.

End Rerun.

Section RerunPrograms.
Context `{GoLib}.
Variable D : string.

(** The concurrent program: the directory is settled when it exists. *)
Lemma mkdirall_noop s how :
  by_mkdirall how -> D ∈ dirs s -> exec_op s (EnsureDir how D) = (s, true).
Proof. intros _. apply exec_EnsureDir_dir. Qed.

Lemma mkdirall_ok s how s' :
  by_mkdirall how -> exec_op s (EnsureDir how D) = (s', true) ->
  D ∈ dirs s' /\ files s' = files s.
Proof.
  intros ->. cbn [exec_op]. pose proof (os_MkdirAll_spec s D) as Hs.
  destruct (os_MkdirAll s D) as [s1 [e|]]; [done|]. intros [= <-].
  by destruct Hs as (? & ? & ?).
Qed.

Lemma mkdirall_fail s how s' :
  by_mkdirall how -> exec_op s (EnsureDir how D) = (s', false) -> s' = s.
Proof.
  intros ->. cbn [exec_op]. pose proof (os_MkdirAll_spec s D) as Hs.
  destruct (os_MkdirAll s D) as [s1 [e|]]; [|done]. by intros [= <-].
Qed.

(** The sequential program: the directory is settled when [os.Stat] does
    not report it missing. *)
Lemma stat_noop s how :
  by_stat how -> stat_settled D s -> exec_op s (EnsureDir how D) = (s, true).
Proof. unfold stat_settled. intros [->| ->] Hs; cbn [exec_op]; by rewrite Hs. Qed.

Lemma is_file_write_at s p bytes q :
  is_file s q = true -> is_file (write_at s p bytes) q = true.
Proof.
  rewrite !is_file_true. unfold write_at; cbn. intros Hq.
  destruct (decide (p = q)) as [->|Hne]; [by rewrite lookup_insert_eq|].
  by rewrite lookup_insert_ne.
Qed.

Lemma stat_write s p bytes : stat_settled D s -> stat_settled D (write_at s p bytes).
Proof.
  unfold stat_settled, os_Stat, IsNotExist.
  change (is_dir (write_at s p bytes)) with (is_dir s).
  destruct (is_dir s D) eqn:Hd; [done|]. cbn [orb].
  destruct (is_file s D) eqn:Hf.
  { intros _. by rewrite is_file_write_at. }
  destruct (is_file (write_at s p bytes) D); [done|]. cbn [Err].
  unfold parent_errno. change (is_dir (write_at s p bytes)) with (is_dir s).
  destruct (parent D) as [q|]; [|done].
  destruct (decide (q = "")); [done|].
  destruct (is_dir s q); [done|].
  destruct (is_file s q) eqn:Hq; [|done]. by rewrite is_file_write_at.
Qed.

Lemma stat_ok s how s' :
  by_stat how -> exec_op s (EnsureDir how D) = (s', true) ->
  stat_settled D s' /\ files s' = files s.
Proof.
  unfold stat_settled. intros [->| ->]; cbn [exec_op].
  - intros [= <- Hs]. by apply negb_true_iff in Hs.
  - destruct (IsNotExist (os_Stat s D)) eqn:Hs; [|by intros [= <-]].
    unfold os_Mkdir. destruct (is_dir s D || is_file s D); [done|].
    destruct (parent_errno s D); [done|]. intros [= <-]. split; [|done].
    unfold os_Stat, is_dir. cbn [dirs]. rewrite bool_decide_eq_true_2 by set_solver. done.
Qed.

Lemma stat_fail s how s' :
  by_stat how -> exec_op s (EnsureDir how D) = (s', false) -> s' = s.
Proof.
  intros [->| ->]; cbn [exec_op].
  - by intros [= <-].
  - destruct (IsNotExist (os_Stat s D)); [|done].
    unfold os_Mkdir. destruct (is_dir s D || is_file s D); [by intros [= <-]|].
    destruct (parent_errno s D); [by intros [= <-]|done].
Qed.

Lemma ConcurrentSteps_starts data id :
  starts_with_dir by_mkdirall D (ConcurrentSteps.base64ToImage data id D).
Proof.
  unfold ConcurrentSteps.base64ToImage, ConcurrentSteps.encodeToJPEG,
    ConcurrentSteps.encodeToPNG, ConcurrentSteps.dumpData, starts_with_dir.
  destruct (image_Decode data) as [m f|f e];
    [destruct (decide (f = "jpeg")); [|destruct (decide (f = "png"))]|];
    try destruct (snd (jpeg_Encode m 100)); try destruct (snd (png_Encode m));
    eexists _, _; (split; [reflexivity|]); (split; [reflexivity|]);
    repeat constructor.
Qed.

Lemma SequentialSteps_starts data id :
  starts_with_dir by_stat D (SequentialSteps.base64ToImage data id D).
Proof.
  unfold SequentialSteps.base64ToImage, SequentialSteps.encodeToJPEG,
    SequentialSteps.encodeToPNG, SequentialSteps.dumpData, starts_with_dir.
  destruct (image_Decode data) as [m f|f e];
    [destruct (decide (f = "jpeg"))|];
    try destruct (snd (jpeg_Encode m 100)); try destruct (snd (png_Encode m));
    eexists _, _; (split; [reflexivity|]); (split; [unfold by_stat; auto|]);
    repeat constructor; unfold by_stat; auto.
Qed.

Lemma concat_starts (allowed : dirop -> Prop) (records : list (list op)) :
  Forall (starts_with_dir allowed D) records ->
  concat records = [] \/ starts_with_dir allowed D (concat records).
Proof.
  destruct 1 as [|r records Hr Hrecords]; [by left|]. right.
  destruct Hr as (how & rest & -> & Hallow & Hgood).
  exists how, (rest ++ concat records)%list. split; [done|]. split; [done|].
  apply Forall_app. split; [done|].
  apply Forall_concat. eapply Forall_impl; [exact Hrecords|].
  intros ops (how' & rest' & -> & ? & ?). by apply Forall_cons.
Qed.

(** The file system after the loop of the sequential [main]. *)
Lemma Sequential_read_loop_fs (n : Z) (rows : list RawRow) w :
  fs (world_of (Sequential.read_loop n rows D w)) =
    fst (exec_ops (fs w)
           (concat ((fun '(data, id) => SequentialSteps.base64ToImage data id D)
                      <$> records_read n rows))).
Proof.
  revert n w. induction rows as [|row rows IH]; intros n w; [done|].
  cbn [Sequential.read_loop records_read].
  destruct (check_fields n row) as [[record| |err] n']; [|done..].
  unfold bind at 1, index. destruct (try_index record 0) as [id|msg]; [|done]. cbn.
  unfold bind at 1. destruct (try_index record 1) as [data|msg]; [|done]. cbn.
  unfold bind at 1. rewrite exec_ops_app.
  destruct (Sequential_base64ToImage_follows data id D w) as [Hfs Hend].
  destruct (exec_ops (fs w) (SequentialSteps.base64ToImage data id D)) as [s1 [|]];
    cbn [fst snd] in *.
  - destruct (Sequential.base64ToImage data id D w) as [[] w1| |]; [|done..].
    cbn in Hfs. rewrite IH. by rewrite Hfs.
  - destruct Hend as [w' Hend]. by rewrite Hend in Hfs |- *.
Qed.

Lemma Sequential_main_fs filepath w :
  fs (world_of (Sequential.main filepath D w)) =
    match read_file (fs w) filepath with
    | inr _ => fs w
    | inl text =>
        fst (exec_ops (fs w)
               (concat ((fun '(data, id) => SequentialSteps.base64ToImage data id D)
                          <$> records_read 0 (csv_lex text))))
    end.
Proof.
  unfold Sequential.main, Sequential.parseCSV, bind at 1 2, Printf. cbn.
  destruct (read_file (fs w) filepath) as [text|e]; [|done]. cbn.
  unfold bind.
  match goal with
  | |- context [Sequential.read_loop ?n ?rows D ?w'] =>
      pose proof (Sequential_read_loop_fs n rows w') as Hl; cbn [fs] in Hl;
      rewrite <- Hl; by destruct (Sequential.read_loop n rows D w')
  end.
Qed.

Lemma dispatched_read_loop (n : Z) (rows : list RawRow) spawned :
  dispatched (Concurrent.read_loop n rows spawned) = (spawned ++ records_read n rows)%list.
Proof.
  revert n spawned. induction rows as [|row rows IH]; intros n spawned.
  { cbn. by rewrite app_nil_r. }
  cbn [Concurrent.read_loop records_read].
  destruct (check_fields n row) as [[record| |err] n']; cbn; try by rewrite app_nil_r.
  destruct (try_index record 0) as [id|msg]; cbn; [|by rewrite app_nil_r].
  destruct (try_index record 1) as [data|msg]; cbn; [|by rewrite app_nil_r].
  by rewrite IH, <- app_assoc.
Qed.

(** The file system after the concurrent [main]. *)
Lemma Concurrent_main_fs schedule filepath w :
  fs (world_of (Concurrent.main schedule filepath D w)) =
    match read_file (fs w) filepath with
    | inr _ => fs w
    | inl text =>
        exec_records (fs w)
          ((fun '(data, id) => ConcurrentSteps.base64ToImage data id D)
             <$> schedule (dispatched (Concurrent.read_loop 0 (csv_lex text) [])))
    end.
Proof.
  unfold Concurrent.main, Concurrent.parseCSV, bind at 1 2, Printf. cbn.
  destruct (read_file (fs w) filepath) as [text|e]; [|done]. cbn.
  destruct (Concurrent.read_loop 0 (csv_lex text) []) as [sp|sp err|sp msg];
    cbn [dispatched]; unfold bind;
    match goal with
    | |- context [Concurrent.run_goroutines ?l D ?w'] =>
        destruct (Concurrent_run_goroutines_runs l D w') as (Hfs & Hret & _);
        destruct (Concurrent.run_goroutines l D w'); done
    end.
Qed.

End RerunPrograms.

(** * Further properties of the programs *)

(** ** The input file *)

(** X1. An input file that cannot be read ends all three programs at once:
    exit status 1, the error on standard error, the line "Importing file"
    as only output, and the file system as it was; no output directory is
    made. *)
Theorem X1_unreadable_input `{GoLib} (schedule : list (string * string) -> list (string * string))
    (w : World) (filepath outputDir : string) (e : PathError) :
  read_file (fs w) filepath = inr e ->
  let w' := mkWorld (fs w) (stdout w ++ [importing_line filepath])
                    (stderr w ++ [Error e +:+ nl]) in
  Sequential.main filepath outputDir w = Exit 1 w' /\
  Concurrent.main schedule filepath outputDir w = Exit 1 w' /\
  CsvJpeg.main filepath w = Exit 1 w'.
Proof.
  intros He w'. subst w'. unfold importing_line.
  unfold Sequential.main, Sequential.parseCSV, Concurrent.main, Concurrent.parseCSV,
    CsvJpeg.main, CsvJpeg.parseCSV, bind, Printf. cbn [fs stdout stderr].
  rewrite He. done.
Qed.

Lemma X1_unreadable_input_witness :
  let w := Toy.world "" in
  let e := mkPathError "open" "missing.csv" ENOENT in
  let w' := mkWorld (fs w) [importing_line "missing.csv"]
                    ["open missing.csv: no such file or directory" +:+ nl] in
  Sequential.main (H:=Toy.lib) "missing.csv" "out" w = Exit 1 w' /\
  Concurrent.main (H:=Toy.lib) id "missing.csv" "out" w = Exit 1 w' /\
  CsvJpeg.main (H:=Toy.lib) "missing.csv" w = Exit 1 w'.
Proof.
  apply (X1_unreadable_input (H:=Toy.lib) id (Toy.world "") "missing.csv" "out"
           (mkPathError "open" "missing.csv" ENOENT)).
  vm_compute. reflexivity.
Defined.

(** X2. An input file without rows: the sequential and the concurrent
    program print the first and the last line and return, the precursor
    prints the first line and returns; none of them touches the file
    system, so the output directory is not made. *)
Theorem X2_empty_input `{GoLib} (schedule : list (string * string) -> list (string * string))
    (w : World) (filepath outputDir text : string) :
  read_file (fs w) filepath = inl text ->
  csv_lex text = [] ->
  schedule [] = [] ->
  let w' := mkWorld (fs w) (stdout w ++ [importing_line filepath; done_line outputDir])
                    (stderr w) in
  Sequential.main filepath outputDir w = Ret tt w' /\
  Concurrent.main schedule filepath outputDir w = Ret tt w' /\
  CsvJpeg.main filepath w
    = Ret tt (mkWorld (fs w) (stdout w ++ [importing_line filepath]) (stderr w)).
Proof.
  intros Hread Hlex Hsched w'. subst w'. unfold importing_line, done_line.
  unfold Sequential.main, Sequential.parseCSV, Concurrent.main, Concurrent.parseCSV,
    CsvJpeg.main, CsvJpeg.parseCSV, bind, Printf. cbn [fs stdout stderr].
  rewrite Hread. unfold NewReader. cbn [FieldsPerRecord pending]. rewrite Hlex.
  cbn [Sequential.read_loop Concurrent.read_loop CsvJpeg.read_loop]. rewrite Hsched.
  cbn [Concurrent.run_goroutines ret fs stdout stderr]. rewrite <- app_assoc. done.
Qed.

Lemma X2_empty_input_witness :
  let w := Toy.world (nl +:+ nl) in
  Sequential.main (H:=Toy.lib) "test.csv" "out" w
    = Ret tt (mkWorld (fs w) [importing_line "test.csv"; done_line "out"] []) /\
  Concurrent.main (H:=Toy.lib) id "test.csv" "out" w
    = Ret tt (mkWorld (fs w) [importing_line "test.csv"; done_line "out"] []) /\
  CsvJpeg.main (H:=Toy.lib) "test.csv" w
    = Ret tt (mkWorld (fs w) [importing_line "test.csv"] []).
Proof.
  apply (X2_empty_input (H:=Toy.lib) id (Toy.world (nl +:+ nl)) "test.csv" "out" (nl +:+ nl));
    reflexivity.
Defined.

(** ** The rows and the goroutines *)

Section DispatchFacts.

Lemma uniform_payload_and_id (n : nat) (record : list string) :
  2 <= n -> length record = n ->
  exists id data, try_index record 0 = inl id /\ try_index record 1 = inl data /\
                  payload_and_id (Fields record) = Some (data, id).
Proof.
  intros Hn Hlen. destruct record as [|id [|data record]]; simpl in Hlen; [lia..|].
  by exists id, data.
Qed.

Lemma Concurrent_read_loop_prefix (n : nat) (good tail : list RawRow) spawned :
  2 <= n -> uniform n good ->
  Concurrent.read_loop (Z.of_nat n) (good ++ tail) spawned
  = Concurrent.read_loop (Z.of_nat n) tail (spawned ++ omap payload_and_id good) /\
  length (omap payload_and_id good) = length good.
Proof.
  intros Hn Hgood. revert spawned.
  induction Hgood as [|row good (record & -> & Hlen) _ IH]; intros spawned.
  { cbn. by rewrite app_nil_r. }
  cbn [app Concurrent.read_loop]. rewrite check_fields_set by lia.
  rewrite Hlen, Z.eqb_refl.
  destruct (uniform_payload_and_id n record Hn Hlen) as (id & data & -> & -> & Hp).
  cbn [omap list_omap]. rewrite Hp.
  destruct (IH (spawned ++ [(data, id)])%list) as [Heq Hlen'].
  rewrite Heq, <- app_assoc. split; [done|]. cbn [length]. by rewrite Hlen'.
Qed.

End DispatchFacts.

(** X3. With [n >= 2] fields expected, the loop of the concurrent [main]
    starts one goroutine per row, in the order of the rows, with the first
    field as identifier and the second as payload; the fields after the
    second are not looked at.  It goes on to the end of the input when all
    rows have [n] fields; at a row the reader refuses it stops with the
    goroutines of the rows before that one. *)
Theorem X3_one_goroutine_per_row (n : nat) (good : list RawRow) (bad : RawRow)
    (rest : list RawRow) (err : string) (spawned : list (string * string)) :
  2 <= n ->
  uniform n good ->
  check_fields (Z.of_nat n) bad = (ReadError err, Z.of_nat n) ->
  Concurrent.read_loop (Z.of_nat n) good spawned
    = Concurrent.Dispatched (spawned ++ omap payload_and_id good) /\
  Concurrent.read_loop (Z.of_nat n) (good ++ bad :: rest) spawned
    = Concurrent.DispatchFatal (spawned ++ omap payload_and_id good) err /\
  length (omap payload_and_id good) = length good.
Proof.
  intros Hn Hgood Hbad.
  destruct (Concurrent_read_loop_prefix n good [] spawned Hn Hgood) as [H1 Hlen].
  destruct (Concurrent_read_loop_prefix n good (bad :: rest) spawned Hn Hgood) as [H2 _].
  rewrite app_nil_r in H1. rewrite H1, H2. cbn [Concurrent.read_loop]. by rewrite Hbad.
Qed.

Lemma X3_one_goroutine_per_row_witness :
  let good := [Fields ["a"; "b"; "c"]; Fields ["d"; "e"; "f"]] in
  Concurrent.read_loop 3 good [] = Concurrent.Dispatched [("b", "a"); ("e", "d")] /\
  Concurrent.read_loop 3 (good ++ [Fields ["g"; "h"]; Fields ["i"; "j"; "k"]]) []
    = Concurrent.DispatchFatal [("b", "a"); ("e", "d")] ErrFieldCount /\
  length (omap payload_and_id good) = 2.
Proof.
  apply (X3_one_goroutine_per_row 3 [Fields ["a"; "b"; "c"]; Fields ["d"; "e"; "f"]]
           (Fields ["g"; "h"]) [Fields ["i"; "j"; "k"]] ErrFieldCount []).
  - lia.
  - repeat constructor; eexists; split; reflexivity.
  - reflexivity.
Defined.

(** ** The console of the concurrent program *)

Section ConsoleFacts.
Context `{GoLib}.
#[local] Arguments Concurrent.dumpData : simpl never.
#[local] Arguments Concurrent.encodeToPNG : simpl never.
#[local] Arguments Concurrent.encodeToJPEG : simpl never.
#[local] Arguments Sprintf : simpl never.
#[local] Arguments String.append : simpl never.

(** A goroutine calls [fmt.Printf] exactly once. *)
Lemma Concurrent_base64ToImage_prints_once data id outputDir w :
  exists line w',
    Concurrent.base64ToImage data id outputDir w = Ret tt w' /\
    stdout w' = (stdout w ++ [line])%list /\ stderr w' = stderr w.
Proof.
  unfold Concurrent.base64ToImage.
  destruct (image_Decode data) as [image f|f err]; cbn [format_of].
  - destruct (decide (f = "jpeg")); [|destruct (decide (f = "png"))]; unfold bind, Printf, ret.
    + destruct (Concurrent_encodeToJPEG_runs image data id outputDir w) as [(_ & Hret & Herr) Hout].
      destruct (Concurrent.encodeToJPEG image data id outputDir w) as [o w1| |]; [|done..].
      cbn in *. eexists _, _. split; [done|]. cbn. by rewrite Hout, Herr.
    + destruct (Concurrent_encodeToPNG_runs image data id outputDir w) as [(_ & Hret & Herr) Hout].
      destruct (Concurrent.encodeToPNG image data id outputDir w) as [o w1| |]; [|done..].
      cbn in *. eexists _, _. split; [done|]. cbn. by rewrite Hout, Herr.
    + destruct (Concurrent_dumpData_runs data id outputDir w) as [(_ & Hret & Herr) Hout].
      destruct (Concurrent.dumpData data id outputDir w) as [o w1| |]; [|done..].
      cbn in *. eexists _, _. split; [done|]. cbn. by rewrite Hout, Herr.
  - unfold bind, Printf, ret. cbn [fs stdout stderr].
    match goal with
    | |- context [Concurrent.dumpData ?d ?i ?o ?w'] =>
        destruct (Concurrent_dumpData_runs d i o w') as [(_ & Hret & Herr) Hout];
        destruct (Concurrent.dumpData d i o w') as [o' w1| |]; [|done..]
    end.
    cbn in *. eexists _, _. split; [done|]. by rewrite Hout, Herr.
Qed.

Lemma Concurrent_run_goroutines_prints ran outputDir w :
  exists lines w',
    Concurrent.run_goroutines ran outputDir w = Ret tt w' /\
    length lines = length ran /\
    stdout w' = (stdout w ++ lines)%list /\ stderr w' = stderr w.
Proof.
  revert w. induction ran as [|[data id] ran IH]; intros w.
  { exists [], w. by rewrite app_nil_r. }
  cbn [Concurrent.run_goroutines]. unfold bind.
  destruct (Concurrent_base64ToImage_prints_once data id outputDir w)
    as (line & w1 & -> & Hout & Herr).
  destruct (IH w1) as (lines & w2 & -> & Hlen & Hout' & Herr').
  exists (line :: lines), w2. split; [done|]. split; [cbn; by rewrite Hlen|].
  rewrite Hout', Hout, Herr', Herr, <- app_assoc. done.
Qed.

End ConsoleFacts.

(** X4. When the reader reaches the end of the input, the concurrent
    program returns with exit status 0 and has printed the line "Importing
    file", then exactly one entry per goroutine, each written by a single
    [fmt.Printf], then the line "Done!"; nothing is written to standard
    error, whatever happened to the records. *)
Theorem X4_concurrent_console `{GoLib} (schedule : list (string * string) -> list (string * string))
    (w : World) (filepath outputDir text : string) (spawned : list (string * string)) :
  read_file (fs w) filepath = inl text ->
  Concurrent.read_loop 0 (csv_lex text) [] = Concurrent.Dispatched spawned ->
  exists lines w',
    Concurrent.main schedule filepath outputDir w = Ret tt w' /\
    length lines = length (schedule spawned) /\
    stdout w' = (stdout w ++ [importing_line filepath] ++ lines ++ [done_line outputDir])%list /\
    stderr w' = stderr w.
Proof.
  intros Hread Hloop.
  unfold Concurrent.main, Concurrent.parseCSV, bind at 1 2, Printf. cbn [fs stdout stderr].
  rewrite Hread. unfold NewReader. cbn [FieldsPerRecord pending]. rewrite Hloop.
  unfold bind.
  match goal with
  | |- context [Concurrent.run_goroutines ?l ?d ?w0] =>
      destruct (Concurrent_run_goroutines_prints l d w0) as (lines & w1 & -> & Hlen & Hout & Herr)
  end.
  exists lines, (mkWorld (fs w1) (stdout w1 ++ [done_line outputDir]) (stderr w1)).
  split; [done|]. split; [done|]. cbn [stdout stderr] in *.
  rewrite Hout, Herr, <- !app_assoc. done.
Qed.

Lemma X4_concurrent_console_witness :
  let csv := "img1,iVBORabc" +:+ nl +:+ "bad1,not-valid-base64!!" +:+ nl in
  exists lines w',
    Concurrent.main (H:=Toy.lib) id "test.csv" "out" (Toy.world csv) = Ret tt w' /\
    length lines = 2 /\
    stdout w' = ([importing_line "test.csv"] ++ lines ++ [done_line "out"])%list /\
    stderr w' = [].
Proof.
  apply (X4_concurrent_console (H:=Toy.lib) id
           (Toy.world ("img1,iVBORabc" +:+ nl +:+ "bad1,not-valid-base64!!" +:+ nl))
           "test.csv" "out" ("img1,iVBORabc" +:+ nl +:+ "bad1,not-valid-base64!!" +:+ nl)
           [("iVBORabc", "img1"); ("not-valid-base64!!", "bad1")]);
    reflexivity.
Defined.

(** ** The files of a record *)

Section PathFacts.
Implicit Types (a b p q d id : string).

Lemma parent_app a b :
  parent (a +:+ b) = match parent b with Some q => Some (a +:+ q) | None => parent a end.
Proof.
  induction a as [|c a IH].
  { change ("" +:+ b) with b. by destruct (parent b). }
  rewrite string_app_cons. cbn [parent]. rewrite IH.
  destruct (parent b) as [q|]; [by rewrite string_app_cons|done].
Qed.

(** The files of a record lie in one directory: the directory part of
    [<d>/<id><ext>] does not depend on an extension without separator. *)
Lemma parent_record_file d id ext :
  parent ext = None ->
  parent (d +:+ String "/" (id +:+ ext))
  = Some (d +:+ match parent id with Some q => String "/" q | None => "" end).
Proof.
  intros Hext. rewrite parent_app. cbn [parent]. rewrite parent_app, Hext.
  by destruct (parent id).
Qed.

Lemma parent_errno_record_file s d id ext1 ext2 :
  parent ext1 = None -> parent ext2 = None ->
  parent_errno s (d +:+ String "/" (id +:+ ext1)) = parent_errno s (d +:+ String "/" (id +:+ ext2)).
Proof. intros H1 H2. unfold parent_errno. by rewrite !parent_record_file. Qed.

(** Where the image file of a record can be opened, its dump file can be
    opened as well, unless a directory has its name. *)
Lemma openable_dump_file s f outputDir id :
  openable s (image_file f outputDir id) = true ->
  dump_file outputDir id ∉ dirs s ->
  openable s (dump_file outputDir id) = true.
Proof.
  unfold openable, image_file, dump_file. intros [_ Hp]%andb_true_iff Hd.
  apply andb_true_iff. split.
  { apply negb_true_iff. unfold is_dir. by apply bool_decide_eq_false. }
  revert Hp. destruct (decide (f = "jpeg")).
  - change (Sprintf "%s/%s.jpeg" [outputDir; id]) with (outputDir +:+ String "/" (id +:+ ".jpeg")).
    change (Sprintf "%s/%s.txt" [outputDir; id]) with (outputDir +:+ String "/" (id +:+ ".txt")).
    by rewrite (parent_errno_record_file s outputDir id ".jpeg" ".txt").
  - change (Sprintf "%s/%s.png" [outputDir; id]) with (outputDir +:+ String "/" (id +:+ ".png")).
    change (Sprintf "%s/%s.txt" [outputDir; id]) with (outputDir +:+ String "/" (id +:+ ".txt")).
    by rewrite (parent_errno_record_file s outputDir id ".png" ".txt").
Qed.

End PathFacts.

(** X5. In the concurrent program, a record whose payload does not decode
    is dumped: once [os.MkdirAll] has put the output directory in place and
    the dump file can be opened, the payload and one newline are written at
    the start of [<outputDir>/<id>.txt], which holds exactly that when it
    did not exist before; every other file is left as it was and no other
    directory is made. *)
Theorem X5_concurrent_dump `{GoLib} (w : World) (data id outputDir f err : string) (s' : FS) :
  image_Decode data = DecodeErr f err ->
  os_MkdirAll (fs w) outputDir = (s', None) ->
  openable s' (dump_file outputDir id) = true ->
  let s1 := fs (world_of (Concurrent.base64ToImage data id outputDir w)) in
  dirs s1 = dirs s' /\
  outputDir ∈ dirs s1 /\
  files s1 !! dump_file outputDir id
    = Some (overwrite (default "" (files (fs w) !! dump_file outputDir id)) (data +:+ nl)) /\
  (files (fs w) !! dump_file outputDir id = None ->
   files s1 !! dump_file outputDir id = Some (data +:+ nl)) /\
  (forall p, p ≠ dump_file outputDir id -> files s1 !! p = files (fs w) !! p).
Proof.
  intros Hdec Hmk Hopen s1. subst s1.
  rewrite (Concurrent_dumps_undecodable w data id outputDir f err s' Hdec Hmk Hopen).
  pose proof (os_MkdirAll_spec (fs w) outputDir) as Hs. rewrite Hmk in Hs.
  destruct Hs as (Hfiles & _ & Hdir).
  unfold write_at. cbn [dirs files]. rewrite Hfiles.
  split; [done|]. split; [done|]. split; [by rewrite lookup_insert_eq|].
  split.
  - intros ->. by rewrite lookup_insert_eq, overwrite_fresh.
  - intros p Hp. by rewrite lookup_insert_ne.
Qed.

Lemma X5_concurrent_dump_witness :
  let w := Toy.world "" in
  let s' := mkFS {[ "out"; "out/a" ]} {[ "test.csv" := "" ]} in
  let s1 := fs (world_of (Concurrent.base64ToImage (H:=Toy.lib) "not-valid-base64!!" "bad1" "out/a" w)) in
  dirs s1 = dirs s' /\
  "out/a" ∈ dirs s1 /\
  files s1 !! dump_file "out/a" "bad1"
    = Some (overwrite (default "" (files (fs w) !! dump_file "out/a" "bad1"))
                      ("not-valid-base64!!" +:+ nl)) /\
  (files (fs w) !! dump_file "out/a" "bad1" = None ->
   files s1 !! dump_file "out/a" "bad1" = Some ("not-valid-base64!!" +:+ nl)) /\
  (forall p, p ≠ dump_file "out/a" "bad1" -> files s1 !! p = files (fs w) !! p).
Proof.
  apply (X5_concurrent_dump (H:=Toy.lib) (Toy.world "") "not-valid-base64!!" "bad1" "out/a"
           "" "image: unknown format"
           (mkFS {[ "out"; "out/a" ]} {[ "test.csv" := "" ]})).
  - reflexivity.
  - vm_compute. reflexivity.
  - vm_compute. reflexivity.
Defined.

(** X6. In the concurrent program, when the encoder fails after the image
    file was opened, the bytes it wrote stay at the start of the image file
    and the payload is dumped beside it: the dump file lies in the same
    directory as the image file, so it can be opened wherever the image
    file could, unless a directory has its name. *)
Theorem X6_concurrent_failed_encode `{GoLib} (w : World) (data id outputDir : string)
    (m : Image) (f bytes err : string) :
  image_Decode data = DecodeOk m f ->
  f = "jpeg" \/ f = "png" ->
  encoding f m = (bytes, Some err) ->
  outputDir ∈ dirs (fs w) ->
  openable (fs w) (image_file f outputDir id) = true ->
  dump_file outputDir id ∉ dirs (fs w) ->
  fs (world_of (Concurrent.base64ToImage data id outputDir w))
    = write_at (write_at (fs w) (image_file f outputDir id) bytes)
               (dump_file outputDir id) (data +:+ nl).
Proof.
  intros Hdec Hf Henc Hdir Himg Hdump.
  apply (Concurrent_dumps_after_failed_encode w data id outputDir m f bytes err); try done.
  by apply (openable_dump_file _ f).
Qed.

Lemma X6_concurrent_failed_encode_witness :
  let w := Toy.world_out "" in
  let s1 := fs (world_of (Concurrent.base64ToImage (H:=Toy.lib) "/9j/Xyz" "j" "out" w)) in
  s1 = write_at (write_at (fs w) "out/j.jpeg" "JPEG100") "out/j.txt" ("/9j/Xyz" +:+ nl) /\
  files s1 !! "out/j.jpeg" = Some "JPEG100" /\
  files s1 !! "out/j.txt" = Some ("/9j/Xyz" +:+ nl).
Proof.
  split; [|vm_compute; done].
  apply (X6_concurrent_failed_encode (H:=Toy.lib) (Toy.world_out "") "/9j/Xyz" "j" "out"
           "Xyz" "jpeg" "JPEG100" "short write").
  - reflexivity.
  - by left.
  - reflexivity.
  - apply (bool_decide_unpack _). vm_compute. exact I.
  - vm_compute. reflexivity.
  - apply (bool_decide_unpack _). vm_compute. exact I.
Defined.

(** ** What a run leaves alone *)

Section KeepFacts.
Implicit Types (s : FS) (p : string).

Lemma exec_EnsureDir_files s how d : files (fst (exec_op s (EnsureDir how d))) = files s.
Proof.
  destruct how; cbn [exec_op].
  - pose proof (os_MkdirAll_spec s d) as Hs.
    destruct (os_MkdirAll s d) as [s' [e|]]; cbn; [by subst|by destruct Hs].
  - destruct (IsNotExist (os_Stat s d)); [|done]. unfold os_Mkdir.
    destruct (is_dir s d || is_file s d); [done|]. by destruct (parent_errno s d).
  - done.
Qed.

Lemma exec_OpenWrite_files s p bytes q :
  q ≠ p -> files (fst (exec_op s (OpenWrite p bytes))) !! q = files s !! q.
Proof.
  intros Hq. destruct (openable s p) eqn:Ho.
  - rewrite exec_OpenWrite_openable by done. unfold write_at. cbn. by rewrite lookup_insert_ne.
  - by rewrite exec_OpenWrite_not_openable.
Qed.

(** Steps change no file but those they open. *)
Lemma exec_ops_files_other s ops p :
  p ∉ paths_of ops -> files (fst (exec_ops s ops)) !! p = files s !! p.
Proof.
  revert s. induction ops as [|o ops IH]; intros s Hp; [done|].
  cbn [exec_ops]. destruct (exec_op s o) as [s' ok] eqn:Ho.
  assert (files s' !! p = files s !! p) as Hs'.
  { change s' with (fst (s', ok)). rewrite <- Ho. destruct o as [how d|q bytes].
    - by rewrite exec_EnsureDir_files.
    - apply exec_OpenWrite_files. cbn in Hp. set_solver. }
  destruct ok; [|done]. rewrite IH; [done|].
  destruct o; cbn in Hp; set_solver.
Qed.

Lemma string_length_overwrite (old new : string) :
  String.length old <= String.length (overwrite old new).
Proof. unfold overwrite. rewrite string_length_app, string_length_drop. lia. Qed.

Lemma grows_refl s : grows s s.
Proof. intros p c Hp. eauto. Qed.

Lemma grows_trans s1 s2 s3 : grows s1 s2 -> grows s2 s3 -> grows s1 s3.
Proof.
  intros H12 H23 p c Hp. destruct (H12 p c Hp) as (c2 & Hp2 & Hle).
  destruct (H23 p c2 Hp2) as (c3 & Hp3 & Hle'). exists c3. split; [done|lia].
Qed.

Lemma exec_op_grows s o : grows s (fst (exec_op s o)).
Proof.
  destruct o as [how d|q bytes].
  - intros p c Hp. rewrite exec_EnsureDir_files. eauto.
  - destruct (openable s q) eqn:Ho; [|rewrite exec_OpenWrite_not_openable by done; apply grows_refl].
    rewrite exec_OpenWrite_openable by done. intros p c Hp. unfold write_at. cbn.
    destruct (decide (q = p)) as [->|Hne].
    + rewrite lookup_insert_eq, Hp. cbn. eexists. split; [done|]. apply string_length_overwrite.
    + rewrite lookup_insert_ne by done. eauto.
Qed.

Lemma exec_ops_grows s ops : grows s (fst (exec_ops s ops)).
Proof.
  revert s. induction ops as [|o ops IH]; intros s; [apply grows_refl|].
  cbn [exec_ops]. pose proof (exec_op_grows s o) as Ho.
  destruct (exec_op s o) as [s' [|]]; [|done]. eapply grows_trans; [exact Ho|apply IH].
Qed.

Lemma exec_records_grows s records : grows s (exec_records s records).
Proof.
  revert s. induction records as [|r records IH]; intros s; [apply grows_refl|].
  cbn [exec_records]. eapply grows_trans; [apply exec_ops_grows|apply IH].
Qed.

End KeepFacts.

(** X7. A run of the sequential or of the concurrent program removes no
    file and makes no file shorter: the files are opened without truncation,
    so a file that was there before the run is there after it, at least as
    long as it was. *)
Theorem X7_no_file_shortened `{GoLib} (schedule : list (string * string) -> list (string * string))
    (w : World) (filepath outputDir : string) :
  grows (fs w) (fs (world_of (Sequential.main filepath outputDir w))) /\
  grows (fs w) (fs (world_of (Concurrent.main schedule filepath outputDir w))).
Proof.
  rewrite Sequential_main_fs, Concurrent_main_fs.
  destruct (read_file (fs w) filepath) as [text|e]; [|split; apply grows_refl].
  split; [apply exec_ops_grows|apply exec_records_grows].
Qed.

(** A file that is longer than what is written to it keeps its end. *)
Example stale_end_stays :
  let w := mkWorld (mkFS {[ "out" ]} {[ "test.csv" := "img1,iVBORabc"; "out/img1.png" := "0123456789" ]})
                   [] [] in
  files (fs (world_of (Concurrent.main (H:=Toy.lib) id "test.csv" "out" w))) !! "out/img1.png"
    = Some "PNG:abc789".
Proof. vm_compute. reflexivity. Qed.

(** X8. A goroutine of the concurrent program changes no file but the three
    that carry the identifier of its record, [<outputDir>/<id>.png],
    [<outputDir>/<id>.jpeg] and [<outputDir>/<id>.txt], and it removes no
    directory. *)
Theorem X8_goroutine_files `{GoLib} (w : World) (data id outputDir p : string) :
  p ∉ targets outputDir id ->
  let s1 := fs (world_of (Concurrent.base64ToImage data id outputDir w)) in
  files s1 !! p = files (fs w) !! p /\ dirs (fs w) ⊆ dirs s1.
Proof.
  intros Hp s1. subst s1.
  destruct (Concurrent_base64ToImage_runs data id outputDir w) as [-> _]. split.
  - apply exec_ops_files_other. intros Hin. apply Hp. revert Hin.
    unfold ConcurrentSteps.base64ToImage, ConcurrentSteps.encodeToJPEG,
      ConcurrentSteps.encodeToPNG, ConcurrentSteps.dumpData, targets.
    destruct (image_Decode data) as [m f|f e];
      [destruct (decide (f = "jpeg")); [|destruct (decide (f = "png"))]|];
      try destruct (snd (jpeg_Encode m 100)); try destruct (snd (png_Encode m));
      cbn [app paths_of]; rewrite !elem_of_cons, !elem_of_nil; tauto.
  - pose proof (ConcurrentSteps_starts outputDir data id) as Hst.
    apply starts_with_dir_good in Hst.
    generalize (ConcurrentSteps.base64ToImage data id outputDir) Hst. clear.
    intros ops. generalize (fs w). clear w.
    induction ops as [|o ops IH]; intros s Hgood; [done|].
    apply Forall_cons in Hgood as [Ho Hgood]. cbn [exec_ops].
    assert (dirs s ⊆ dirs (fst (exec_op s o))) as Hsub.
    { destruct o as [how d|q bytes].
      - destruct Ho as [-> _]. cbn [exec_op]. pose proof (os_MkdirAll_spec s d) as Hs.
        destruct (os_MkdirAll s d) as [s' [e|]]; cbn; [by subst|by destruct Hs as (_ & ? & _)].
      - destruct (openable s q) eqn:Hq.
        + by rewrite exec_OpenWrite_openable.
        + by rewrite exec_OpenWrite_not_openable. }
    destruct (exec_op s o) as [s' [|]]; [|done]. etrans; [exact Hsub|by apply IH].
Qed.

Lemma X8_goroutine_files_witness :
  let w := Toy.world_out "" in
  let s1 := fs (world_of (Concurrent.base64ToImage (H:=Toy.lib) "iVBORabc" "img1" "out" w)) in
  files s1 !! "test.csv" = files (fs w) !! "test.csv" /\ dirs (fs w) ⊆ dirs s1.
Proof.
  apply (X8_goroutine_files (H:=Toy.lib) (Toy.world_out "") "iVBORabc" "img1" "out" "test.csv").
  apply (bool_decide_unpack _). vm_compute. exact I.
Defined.

(** ** The precursor *)

(** X9. The precursor has no routing: whatever format the payload decodes
    to, the image is encoded as JPEG with quality 100 and written to
    [./output/<filename>.jpeg]; nothing is dumped, nothing is logged, and no
    error is returned. *)
Theorem X9_precursor_always_jpeg `{GoLib} (w : World) (data filename : string)
    (m : Image) (f bytes : string) :
  image_Decode data = DecodeOk m f ->
  openable (fs w) (Sprintf "./output/%s.jpeg" [filename]) = true ->
  jpeg_Encode m 100 = (bytes, None) ->
  exists w',
    CsvJpeg.base64toJpg data filename w = Ret None w' /\
    fs w' = write_at (fs w) (Sprintf "./output/%s.jpeg" [filename]) bytes /\
    stderr w' = stderr w.
Proof.
  intros Hdec Hopen Henc.
  unfold CsvJpeg.base64toJpg. rewrite Hdec. cbn [format_of].
  unfold bind, Printf, OpenFile, Write, sys, ret. cbn [fs stdout stderr].
  rewrite os_OpenFile_openable by done. rewrite Henc. cbn [fs stdout stderr].
  eexists. split; [reflexivity|]. cbn [fs stderr]. by rewrite write_at_opened.
Qed.

Lemma X9_precursor_always_jpeg_witness :
  let w := mkWorld (mkFS {[ "./output" ]} ∅) [] [] in
  exists w',
    CsvJpeg.base64toJpg (H:=Toy.lib) "iVBORabc" "img1" w = Ret None w' /\
    fs w' = write_at (fs w) (Sprintf "./output/%s.jpeg" ["img1"]) "JPEG100:abc" /\
    stderr w' = stderr w.
Proof.
  apply (X9_precursor_always_jpeg (H:=Toy.lib) (mkWorld (mkFS {[ "./output" ]} ∅) [] [])
           "iVBORabc" "img1" "abc" "png" "JPEG100:abc").
  - reflexivity.
  - vm_compute. reflexivity.
  - reflexivity.
Defined.

(** X10. The precursor never makes a directory.  When the directory that
    would hold [./output/<filename>.jpeg] is missing, the dump file, which
    lies in the same directory, cannot be opened either: whether the payload
    decodes or not, [dumpData] ends the run with status 1 and the file
    system is left as it was. *)
Theorem X10_precursor_needs_output_dir `{GoLib} (w : World) (data filename : string) :
  parent_errno (fs w) (Sprintf "./output/%s.jpeg" [filename]) ≠ None ->
  exists w', CsvJpeg.base64toJpg data filename w = Exit 1 w' /\ fs w' = fs w.
Proof.
  intros Hpar.
  assert (parent_errno (fs w) (Sprintf "./output/%s.txt" [filename]) ≠ None) as Hpar'.
  { change (Sprintf "./output/%s.txt" [filename]) with ("./output" +:+ String "/" (filename +:+ ".txt")).
    change (Sprintf "./output/%s.jpeg" [filename])
      with ("./output" +:+ String "/" (filename +:+ ".jpeg")) in Hpar.
    by rewrite (parent_errno_record_file _ _ _ ".txt" ".jpeg"). }
  assert (forall p, parent_errno (fs w) p ≠ None -> exists e, os_OpenFile (fs w) p = (fs w, Some e))
    as Hfail.
  { intros p Hp. apply os_OpenFile_not_openable. unfold openable.
    rewrite bool_decide_eq_false_2 by done. apply andb_false_r. }
  destruct (Hfail _ Hpar) as [e He]. destruct (Hfail _ Hpar') as [e' He'].
  unfold CsvJpeg.base64toJpg, CsvJpeg.dumpData.
  destruct (image_Decode data) as [m f|f err]; cbn [format_of];
    unfold bind, Printf, OpenFile, Write, sys, ret, log_Fatalln; cbn [fs stdout stderr];
    rewrite ?He; cbn [fs stdout stderr]; rewrite He'; cbn [fs stdout stderr]; eauto.
Qed.

Lemma X10_precursor_needs_output_dir_witness :
  let w := Toy.world "" in
  exists w', CsvJpeg.base64toJpg (H:=Toy.lib) "iVBORabc" "img1" w = Exit 1 w' /\ fs w' = fs w.
Proof.
  apply (X10_precursor_needs_output_dir (H:=Toy.lib) (Toy.world "") "iVBORabc" "img1").
  vm_compute. discriminate.
Defined.

(** ** The output directory in the sequential program *)

(** X11. The one place where the sequential program makes the output
    directory is [encodeToPNG]: for a record that does not decode to JPEG,
    when [os.Stat] reports the directory missing and the directory above it
    is in place, [os.Mkdir] makes it, and the PNG file is written in it. *)
Theorem X11_sequential_png_makes_dir `{GoLib} (w : World) (data id outputDir : string)
    (m : Image) (f bytes : string) :
  image_Decode data = DecodeOk m f ->
  f ≠ "jpeg" ->
  png_Encode m = (bytes, None) ->
  IsNotExist (os_Stat (fs w) outputDir) = true ->
  parent_errno (fs w) outputDir = None ->
  let s1 := mkFS ({[outputDir]} ∪ dirs (fs w)) (files (fs w)) in
  openable s1 (Sprintf "%s/%s.png" [outputDir; id]) = true ->
  returned (Sequential.base64ToImage data id outputDir w) = true /\
  fs (world_of (Sequential.base64ToImage data id outputDir w))
    = write_at s1 (Sprintf "%s/%s.png" [outputDir; id]) bytes.
Proof.
  intros Hdec Hf Henc Hstat Hpar s1 Hopen.
  destruct (Sequential_base64ToImage_follows data id outputDir w) as [Hfs Hend].
  revert Hfs Hend. unfold SequentialSteps.base64ToImage. rewrite Hdec.
  rewrite decide_False by done. unfold SequentialSteps.encodeToPNG. rewrite Henc.
  cbn [fst snd app exec_ops].
  assert (exec_op (fs w) (EnsureDir ByStatMkdir outputDir) = (s1, true)) as ->.
  { cbn [exec_op]. rewrite Hstat. unfold os_Mkdir, os_Stat in *.
    destruct (is_dir (fs w) outputDir || is_file (fs w) outputDir); [done|].
    by rewrite Hpar. }
  rewrite exec_OpenWrite_openable by done. cbn [fst snd]. done.
Qed.

Lemma X11_sequential_png_makes_dir_witness :
  let w := Toy.world "" in
  returned (Sequential.base64ToImage (H:=Toy.lib) "iVBORabc" "img1" "out" w) = true /\
  fs (world_of (Sequential.base64ToImage (H:=Toy.lib) "iVBORabc" "img1" "out" w))
    = write_at (mkFS ({["out"]} ∪ dirs (fs w)) (files (fs w)))
               (Sprintf "%s/%s.png" ["out"; "img1"]) "PNG:abc".
Proof.
  apply (X11_sequential_png_makes_dir (H:=Toy.lib) (Toy.world "") "iVBORabc" "img1" "out"
           "abc" "png" "PNG:abc").
  - reflexivity.
  - discriminate.
  - reflexivity.
  - vm_compute. reflexivity.
  - vm_compute. reflexivity.
  - vm_compute. reflexivity.
Defined.

(** ** The order of the goroutines *)

Section OrderFacts.
Context `{GoLib}.
Variable D : string.
Implicit Types (s : FS) (p id : string).

(** An identifier is determined by the name of any of its three files. *)
Lemma id_of_file_name (id id' e e' : string) :
  e ∈ [".png"; ".jpeg"; ".txt"] -> e' ∈ [".png"; ".jpeg"; ".txt"] ->
  id +:+ e = id' +:+ e' -> id = id'.
Proof.
  intros He He'. revert id'. induction id as [|c id IH]; intros id' Heq.
  - destruct id' as [|c' id']; [done|]. exfalso.
    pose proof (f_equal String.length Heq) as Hlen.
    rewrite !string_length_app in Hlen.
    rewrite !elem_of_cons, !elem_of_nil in He, He'.
    destruct id' as [|c2 id'];
      destruct He as [->|[->|[->|[]]]], He' as [->|[->|[->|[]]]];
      cbn in Hlen; try lia; discriminate Heq.
  - destruct id' as [|c' id'].
    + exfalso. pose proof (f_equal String.length Heq) as Hlen.
      rewrite !string_length_app in Hlen.
      rewrite !elem_of_cons, !elem_of_nil in He, He'.
      destruct id as [|c2 id];
        destruct He as [->|[->|[->|[]]]], He' as [->|[->|[->|[]]]];
        cbn in Hlen; try lia; discriminate Heq.
    + rewrite !string_app_cons in Heq. injection Heq as -> Heq. f_equal. by apply IH.
Qed.

(** The files of two records with different identifiers are different. *)
Lemma targets_disjoint id id' p :
  id ≠ id' -> p ∈ targets D id -> p ∉ targets D id'.
Proof.
  intros Hne Hp Hp'. apply Hne. revert Hp Hp'. unfold targets.
  change (Sprintf "%s/%s.png" [D; id]) with (D +:+ String "/" (id +:+ ".png")).
  change (Sprintf "%s/%s.jpeg" [D; id]) with (D +:+ String "/" (id +:+ ".jpeg")).
  change (Sprintf "%s/%s.txt" [D; id]) with (D +:+ String "/" (id +:+ ".txt")).
  change (Sprintf "%s/%s.png" [D; id']) with (D +:+ String "/" (id' +:+ ".png")).
  change (Sprintf "%s/%s.jpeg" [D; id']) with (D +:+ String "/" (id' +:+ ".jpeg")).
  change (Sprintf "%s/%s.txt" [D; id']) with (D +:+ String "/" (id' +:+ ".txt")).
  rewrite !elem_of_cons, !elem_of_nil.
  assert (forall e e', e ∈ [".png"; ".jpeg"; ".txt"] -> e' ∈ [".png"; ".jpeg"; ".txt"] ->
            p = D +:+ String "/" (id +:+ e) -> p = D +:+ String "/" (id' +:+ e') -> id = id')
    as Hinj.
  { intros e e' He He' -> Heq. apply string_app_inv_head in Heq. injection Heq as Heq.
    by apply (id_of_file_name id id' e e'). }
  intros [Hp|[Hp|[Hp|[]]]] [Hp'|[Hp'|[Hp'|[]]]];
    (eapply Hinj; [| |exact Hp|exact Hp']);
    rewrite !elem_of_cons; auto.
Qed.

Lemma ConcurrentSteps_paths data id p :
  p ∈ paths_of (ConcurrentSteps.base64ToImage data id D) -> p ∈ targets D id.
Proof.
  unfold ConcurrentSteps.base64ToImage, ConcurrentSteps.encodeToJPEG,
    ConcurrentSteps.encodeToPNG, ConcurrentSteps.dumpData, targets.
  destruct (image_Decode data) as [m f|f e];
    [destruct (decide (f = "jpeg")); [|destruct (decide (f = "png"))]|];
    try destruct (snd (jpeg_Encode m 100)); try destruct (snd (png_Encode m));
    cbn [app paths_of]; rewrite !elem_of_cons, !elem_of_nil; tauto.
Qed.

Lemma writes_to_app p (ws1 ws2 : list (string * string)) :
  writes_to p (ws1 ++ ws2) = (writes_to p ws1 ++ writes_to p ws2)%list.
Proof.
  induction ws1 as [|[q b] ws1 IH]; [done|]. cbn [app writes_to].
  destruct (decide (q = p)); [cbn; by rewrite IH|done].
Qed.

Lemma writes_to_writes_of p ds ops :
  p ∉ paths_of ops -> writes_to p (fst (writes_of ds ops)) = [].
Proof.
  induction ops as [|[how d|q b] ops IH]; intros Hp; [done|by apply IH|].
  cbn [paths_of] in Hp. apply not_elem_of_cons in Hp as [Hne Hp].
  cbn [writes_of]. destruct (openable_in ds q); [|done].
  specialize (IH Hp). destruct (writes_of ds ops) as [ws ok]. cbn [fst writes_to] in *.
  by rewrite decide_False.
Qed.

(** Writes to different files can change places. *)
Lemma apply_writes_comm (ws1 ws2 : list (string * string)) (m : gmap string string) :
  (forall p, writes_to p ws1 = [] \/ writes_to p ws2 = []) ->
  apply_writes (ws1 ++ ws2) m = apply_writes (ws2 ++ ws1) m.
Proof.
  intros Hdis. apply map_eq. intros p. rewrite !apply_writes_lookup, !writes_to_app.
  destruct (Hdis p) as [-> | ->]; by rewrite app_nil_r.
Qed.

Lemma exec_records_swap s (x y : string * string) :
  x.2 ≠ y.2 ->
  exec_records s [goroutine_steps D x; goroutine_steps D y]
  = exec_records s [goroutine_steps D y; goroutine_steps D x].
Proof.
  destruct x as [dx ix], y as [dy iy]. cbn [snd goroutine_steps]. intros Hne.
  pose proof (ConcurrentSteps_starts D dx ix) as Hsx.
  pose proof (ConcurrentSteps_starts D dy iy) as Hsy.
  set (rx := ConcurrentSteps.base64ToImage dx ix D) in *.
  set (ry := ConcurrentSteps.base64ToImage dy iy D) in *.
  destruct (exec_op s (EnsureDir ByMkdirAll D)) as [s' [|]] eqn:Hens.
  - destruct (mkdirall_ok D s ByMkdirAll s' eq_refl Hens) as [Hset _].
    assert (forall r r', starts_with_dir by_mkdirall D r -> starts_with_dir by_mkdirall D r' ->
              exec_records s [r; r'] = exec_records s' [r; r']) as Hfrom.
    { intros r r' (how & rest & -> & -> & _) _. cbn [exec_records exec_ops].
      by rewrite Hens, (mkdirall_noop D s' ByMkdirAll eq_refl Hset). }
    rewrite !Hfrom by done.
    assert (forall r r', starts_with_dir by_mkdirall D r -> starts_with_dir by_mkdirall D r' ->
              exec_records s' [r; r']
              = mkFS (dirs s')
                  (apply_writes (fst (writes_of (dirs s') r) ++ fst (writes_of (dirs s') r'))
                     (files s'))) as Hset2.
    { intros r r' Hr Hr'.
      destruct (settled_exec_records D (fun s => D ∈ dirs s) by_mkdirall
                  (mkdirall_noop D) (fun s p b Hs => Hs) s' [r; r'] Hset) as [-> _].
      - repeat constructor; by apply (starts_with_dir_good D by_mkdirall).
      - cbn [fmap list_fmap concat]. by rewrite app_nil_r. }
    rewrite !Hset2 by done. f_equal. apply apply_writes_comm.
    intros p. destruct (decide (p ∈ paths_of rx)) as [Hin|Hout].
    + right. apply writes_to_writes_of. intros Hin'.
      apply ConcurrentSteps_paths in Hin, Hin'. by apply (targets_disjoint ix iy p).
    + left. by apply writes_to_writes_of.
  - pose proof (mkdirall_fail D s ByMkdirAll s' eq_refl Hens) as ->.
    rewrite !(failed_exec_records D by_mkdirall s ByMkdirAll _ eq_refl
                (fun h1 h2 (E1 : by_mkdirall h1) (E2 : by_mkdirall h2) => eq_trans E1 (eq_sym E2)) Hens);
      [done|repeat constructor; done..].
Qed.

(** With identifiers that are all different, the goroutines leave the same
    file system in whatever order they run. *)
Lemma exec_records_order (l1 l2 : list (string * string)) :
  l1 ≡ₚ l2 -> NoDup (l1.*2) ->
  forall s, exec_records s (goroutine_steps D <$> l1) = exec_records s (goroutine_steps D <$> l2).
Proof.
  induction 1 as [|x l1 l2 Hperm IH|x y l|l1 l2 l3 H12 IH12 H23 IH23]; intros Hnd s.
  - done.
  - cbn [fmap list_fmap exec_records]. apply IH. by apply NoDup_cons in Hnd as [_ ?].
  - cbn [fmap list_fmap]. cbn [fmap list_fmap] in Hnd.
    apply NoDup_cons in Hnd as [Hy _]. apply not_elem_of_cons in Hy as [Hne _].
    change (exec_records (exec_records s [goroutine_steps D y; goroutine_steps D x])
              (goroutine_steps D <$> l)
            = exec_records (exec_records s [goroutine_steps D x; goroutine_steps D y])
                (goroutine_steps D <$> l)).
    by rewrite (exec_records_swap s y x).
  - rewrite IH12 by done. apply IH23. by rewrite <- H12.
Qed.

End OrderFacts.

(** X12. In the concurrent program the order in which the goroutines run
    does not matter for the files when the identifiers of the records are
    all different: two runs on the same input in which every goroutine
    started has run leave the same file system.  The files of different
    records have different names, and whichever goroutine comes first makes
    the output directory. *)
Theorem X12_order_of_goroutines `{GoLib}
    (schedule1 schedule2 : list (string * string) -> list (string * string))
    (w : World) (filepath outputDir text : string) :
  read_file (fs w) filepath = inl text ->
  let records := records_read 0 (csv_lex text) in
  NoDup (records.*2) ->
  schedule1 records ≡ₚ records ->
  schedule2 records ≡ₚ records ->
  fs (world_of (Concurrent.main schedule1 filepath outputDir w))
  = fs (world_of (Concurrent.main schedule2 filepath outputDir w)).
Proof.
  intros Hread records Hnd H1 H2.
  rewrite !Concurrent_main_fs, Hread, dispatched_read_loop. cbn [app]. fold records.
  change (exec_records (fs w) (goroutine_steps outputDir <$> schedule1 records)
          = exec_records (fs w) (goroutine_steps outputDir <$> schedule2 records)).
  rewrite (exec_records_order outputDir (schedule1 records) records H1).
  - symmetry. apply (exec_records_order outputDir (schedule2 records) records H2).
    by rewrite H2.
  - by rewrite H1.
Qed.

Lemma X12_order_of_goroutines_witness :
  let csv := "img1,iVBORabc" +:+ nl +:+ "bad1,not-valid-base64!!" +:+ nl +:+ "j,/9j/Xyz" +:+ nl in
  fs (world_of (Concurrent.main (H:=Toy.lib) id "test.csv" "out" (Toy.world csv)))
  = fs (world_of (Concurrent.main (H:=Toy.lib) (@rev (string * string)) "test.csv" "out"
                    (Toy.world csv))).
Proof.
  apply (X12_order_of_goroutines (H:=Toy.lib) id (@rev (string * string))
           (Toy.world ("img1,iVBORabc" +:+ nl +:+ "bad1,not-valid-base64!!" +:+ nl
                       +:+ "j,/9j/Xyz" +:+ nl))
           "test.csv" "out"
           ("img1,iVBORabc" +:+ nl +:+ "bad1,not-valid-base64!!" +:+ nl +:+ "j,/9j/Xyz" +:+ nl)).
  - reflexivity.
  - apply (bool_decide_unpack _). vm_compute. exact I.
  - reflexivity.
  - symmetry. apply Permutation_rev.
Defined.

(** ** The two revisions of [csv-image.go] side by side *)

Section Agreement.
Context `{GoLib}.
Variable D : string.

Lemma both_steps_write s data id :
  D ∈ dirs s -> goes_through D (dirs s) (data, id) ->
  exists p bytes,
    exec_ops s (SequentialSteps.base64ToImage data id D) = (write_at s p bytes, true) /\
    exec_ops s (ConcurrentSteps.base64ToImage data id D) = (write_at s p bytes, true).
Proof.
  intros Hdir (m & f & bytes & Hdec & Hf & Henc & Hopen). cbn [fst snd] in *.
  rewrite <- openable_openable_in in Hopen.
  exists (image_file f D id), bytes.
  unfold SequentialSteps.base64ToImage, ConcurrentSteps.base64ToImage. rewrite Hdec.
  unfold encoding, image_file in *.
  unfold SequentialSteps.encodeToJPEG, SequentialSteps.encodeToPNG,
    ConcurrentSteps.encodeToJPEG, ConcurrentSteps.encodeToPNG.
  destruct (decide (f = "jpeg")) as [->|Hj].
  - rewrite Henc. cbn [fst snd app exec_ops].
    by rewrite !exec_EnsureDir_dir, !exec_OpenWrite_openable.
  - destruct Hf as [->| ->]; [done|]. rewrite decide_True by done.
    rewrite Henc. cbn [fst snd app exec_ops].
    by rewrite !exec_EnsureDir_dir, !exec_OpenWrite_openable.
Qed.

Lemma both_loops_write s (records : list (string * string)) :
  D ∈ dirs s -> Forall (goes_through D (dirs s)) records ->
  exec_ops s (concat ((fun '(data, id) => SequentialSteps.base64ToImage data id D) <$> records))
  = (exec_records s (goroutine_steps D <$> records), true).
Proof.
  revert s. induction records as [|[data id] records IH]; intros s Hdir Hall; [done|].
  apply Forall_cons in Hall as [Hr Hall].
  destruct (both_steps_write s data id Hdir Hr) as (p & bytes & Hseq & Hcon).
  cbn [fmap list_fmap concat exec_records goroutine_steps].
  rewrite exec_ops_app, Hseq, Hcon. cbn [fst]. by apply IH.
Qed.

End Agreement.

(** X13. With the output directory in place, on an input whose records all
    decode to JPEG or PNG, encode without error and have an image file that
    can be opened, the sequential and the concurrent program leave the same
    file system (the identifiers being all different, in whatever order the
    goroutines run): the two revisions differ only in what they do when
    something fails or is missing. *)
Theorem X13_revisions_agree `{GoLib} (schedule : list (string * string) -> list (string * string))
    (w : World) (filepath outputDir text : string) :
  read_file (fs w) filepath = inl text ->
  outputDir ∈ dirs (fs w) ->
  let records := records_read 0 (csv_lex text) in
  Forall (goes_through outputDir (dirs (fs w))) records ->
  NoDup (records.*2) ->
  schedule records ≡ₚ records ->
  fs (world_of (Sequential.main filepath outputDir w))
  = fs (world_of (Concurrent.main schedule filepath outputDir w)).
Proof.
  intros Hread Hdir records Hall Hnd Hperm.
  rewrite Sequential_main_fs, Concurrent_main_fs, Hread, dispatched_read_loop.
  cbn [app]. fold records.
  rewrite (both_loops_write outputDir (fs w) records Hdir Hall). cbn [fst].
  change (exec_records (fs w) (goroutine_steps outputDir <$> records)
          = exec_records (fs w) (goroutine_steps outputDir <$> schedule records)).
  symmetry. apply exec_records_order; [done|by rewrite Hperm].
Qed.

Lemma X13_revisions_agree_witness :
  let csv := "img1,iVBORabc" +:+ nl +:+ "img2,/9j/def" +:+ nl in
  fs (world_of (Sequential.main (H:=Toy.lib) "test.csv" "out" (Toy.world_out csv)))
  = fs (world_of (Concurrent.main (H:=Toy.lib) (@rev (string * string)) "test.csv" "out"
                    (Toy.world_out csv))).
Proof.
  apply (X13_revisions_agree (H:=Toy.lib) (@rev (string * string))
           (Toy.world_out ("img1,iVBORabc" +:+ nl +:+ "img2,/9j/def" +:+ nl))
           "test.csv" "out" ("img1,iVBORabc" +:+ nl +:+ "img2,/9j/def" +:+ nl)).
  - reflexivity.
  - apply (bool_decide_unpack _). vm_compute. exact I.
  - match goal with
    | |- Forall _ ?l => let l' := eval vm_compute in l in change l with l'
    end.
    apply List.Forall_cons; [|apply List.Forall_cons; [|apply List.Forall_nil]].
    + exists "abc", "png", "PNG:abc". repeat split; try reflexivity. by right.
    + exists "def", "jpeg", "JPEG100:def". repeat split; try reflexivity. by left.
  - apply (bool_decide_unpack _). vm_compute. exact I.
  - symmetry. apply Permutation_rev.
Defined.

(** * C7: the files after a second run *)

(** C7 (as amended). A second run with the same input file and the same
    output directory leaves the file system as the first run left it, every
    output file with the same bytes and no directory added: in the
    sequential program always, in the concurrent program when the
    identifiers of the records are all different and every goroutine
    started has run in both runs, in whatever order.  The encoders are
    functions.  The files are not truncated on opening; the second run
    writes the same bytes over them. *)
Theorem C7_second_run_same_files `{GoLib}
    (schedule1 schedule2 : list (string * string) -> list (string * string))
    (filepath outputDir : string) (w : World) :
  let w1 := world_of (Concurrent.main schedule1 filepath outputDir w) in
  let v1 := world_of (Sequential.main filepath outputDir w) in
  let records := input_records (fs w) filepath in
  read_file (fs w1) filepath = read_file (fs w) filepath ->
  read_file (fs v1) filepath = read_file (fs w) filepath ->
  fs (world_of (Sequential.main filepath outputDir v1)) = fs v1 /\
  (NoDup (records.*2) ->
   schedule1 records ≡ₚ records ->
   schedule2 records ≡ₚ records ->
   fs (world_of (Concurrent.main schedule2 filepath outputDir w1)) = fs w1).
Proof.
  intros w1 v1 records Hw Hv. split.
  - rewrite (Sequential_main_fs outputDir filepath v1), Hv.
    subst v1. rewrite (Sequential_main_fs outputDir filepath w).
    destruct (read_file (fs w) filepath) as [text|e]; [|done].
    apply (rerun_exec_ops outputDir (stat_settled outputDir) by_stat).
    + apply stat_noop.
    + apply stat_write.
    + apply stat_ok.
    + apply stat_fail.
    + apply concat_starts, Forall_fmap, Forall_forall.
      intros [data id] _. apply SequentialSteps_starts.
  - intros Hnd H1 H2.
    rewrite (Concurrent_main_fs outputDir schedule2 filepath w1), Hw.
    subst w1. rewrite (Concurrent_main_fs outputDir schedule1 filepath w).
    subst records. unfold input_records in *.
    destruct (read_file (fs w) filepath) as [text|e]; [|done].
    rewrite dispatched_read_loop. cbn [app].
    set (records := records_read 0 (csv_lex text)) in *.
    change (exec_records
              (exec_records (fs w) (goroutine_steps outputDir <$> schedule1 records))
              (goroutine_steps outputDir <$> schedule2 records)
            = exec_records (fs w) (goroutine_steps outputDir <$> schedule1 records)).
    rewrite (exec_records_order outputDir (schedule2 records) (schedule1 records));
      [|by rewrite H1, H2|by rewrite H2].
    apply (rerun_exec_records outputDir (fun s => outputDir ∈ dirs s) by_mkdirall).
    + apply mkdirall_noop.
    + done.
    + apply mkdirall_ok.
    + apply mkdirall_fail.
    + by intros h1 h2 -> ->.
    + apply Forall_fmap, Forall_forall. intros [data id] _. apply ConcurrentSteps_starts.
Qed.

Lemma C7_second_run_same_files_witness :
  let csv := "img1,iVBORabc" +:+ nl +:+ "bad1,not-valid-base64!!" +:+ nl
             +:+ "j,/9j/Xyz" +:+ nl in
  let w := Toy.world csv in
  let w1 := world_of (Concurrent.main (H:=Toy.lib) id "test.csv" "out" w) in
  let v1 := world_of (Sequential.main (H:=Toy.lib) "test.csv" "out" w) in
  fs (world_of (Sequential.main (H:=Toy.lib) "test.csv" "out" v1)) = fs v1 /\
  fs (world_of (Concurrent.main (H:=Toy.lib) (@rev (string * string)) "test.csv" "out" w1))
  = fs w1.
Proof.
  intros csv w w1 v1.
  destruct (C7_second_run_same_files (H:=Toy.lib) id (@rev (string * string))
              "test.csv" "out" w) as [Hseq Hcon].
  - vm_compute. reflexivity.
  - vm_compute. reflexivity.
  - split; [exact Hseq|]. apply Hcon.
    + apply (bool_decide_unpack _). vm_compute. exact I.
    + reflexivity.
    + symmetry. apply Permutation_rev.
Defined.

(** C7, as stated, fails on the concurrent program.  On an input whose
    second row is refused, [log.Fatalln] ends the process while the
    goroutine of the first row is in flight: it may not have run in the
    first run and have run in the second, and the dump file is there only
    after the second.  And with one identifier on two rows the file holds
    the bytes of whichever goroutine ran last over those of the other, so
    that a second run in another order leaves other bytes than the
    first. *)
Lemma C7_counterexample :
  let none : list (string * string) -> list (string * string) := fun _ => [] in
  let csv := "bad1,not-valid-base64!!" +:+ nl +:+ "x,y,z" +:+ nl in
  let w1 := world_of (Concurrent.main (H:=Toy.lib) none "test.csv" "out" (Toy.world csv)) in
  let w2 := world_of (Concurrent.main (H:=Toy.lib) id "test.csv" "out" w1) in
  let csv' := "a,foo" +:+ nl +:+ "a,barbaz" +:+ nl in
  let u1 := world_of (Concurrent.main (H:=Toy.lib) id "test.csv" "out" (Toy.world csv')) in
  let u2 := world_of (Concurrent.main (H:=Toy.lib) (@rev (string * string)) "test.csv" "out" u1) in
  (read_file (fs w1) "test.csv" = inl csv /\
   files (fs w1) !! "out/bad1.txt" = None /\
   files (fs w2) !! "out/bad1.txt" = Some ("not-valid-base64!!" +:+ nl)) /\
  (read_file (fs u1) "test.csv" = inl csv' /\
   files (fs u1) !! "out/a.txt" = Some ("barbaz" +:+ nl) /\
   files (fs u2) !! "out/a.txt" = Some ("foo" +:+ nl +:+ "az" +:+ nl)).
Proof. vm_compute. done. Qed.
